(** * Interpolation engine of mitgcm_python: a shallow embedding

    The functions of [interpolation.py] are transcribed as Rocq functions.
    Floating-point numbers are read as rationals ([Q], exact arithmetic), so
    the comparisons [==], [!=], [>] of the source become [Qeq_bool] and
    [Qle_bool].  A numpy field is a nested list (depth x lat x lon); the
    vectorised numpy expressions become array comprehensions ([tab]) over
    the shape of the field.  Python exceptions and the [print ...; sys.exit()]
    error exits are values of an error monad. *)

From Stdlib Require Import String List Arith Bool ZArith QArith Qfield Lia Lqa.
Import ListNotations.

Set Implicit Arguments.
Local Open Scope nat_scope.

(** ** Python outcomes *)

Module Py.

(** The ways a call of the module can fail.  The first four are the
    [print 'Error (...)'; sys.exit()] exits of the source, named after what
    they report; the others are the interpreter's own exceptions. *)
Inductive exn : Type :=
| ConflictingConfigError          (* extend_into_mask: can't set a missing value for a masked array *)
| ConvergenceError                (* discard_and_fill: some missing values cannot be filled *)
| OutOfBoundsError (val0 : Q)     (* interp_helper: val0 is out of bounds *)
| UsageError                      (* interp_reg: dim must be 2 or 3 *)
| IndexError
| ValueError
| NameError (name : string)
| UnboundLocalError (name : string)
| AttributeError (attr : string).

Inductive result (A : Type) : Type :=
| Ok (a : A)
| Raise (e : exn).

Arguments Ok {A} a.
Arguments Raise {A} e.

Definition bind {A B : Type} (c : result A) (k : A -> result B) : result B :=
  match c with
  | Ok a => k a
  | Raise e => Raise e
  end.

(** Names bound at module level in interpolation.py: its imports and its
    own functions.  Any other global name is unbound. *)
Definition module_globals : list string :=
  [ "np"; "sys";
    "RectBivariateSpline"; "RegularGridInterpolator"; "interp2d"; "interp1d";
    "mask_land"; "mask_land_zice"; "mask_3d"; "xy_to_xyz"; "z_to_xyz";
    "interp_grid"; "neighbours"; "neighbours_z"; "extend_into_mask";
    "interp_topo"; "remove_isolated_cells"; "interp_reg"; "discard_and_fill";
    "interp_slice_helper"; "interp_bdry" ]%string.

Definition lookup_global (name : string) : result unit :=
  if existsb (String.eqb name) module_globals then Ok tt
  else Raise (NameError name).

End Py.

Import Py.

Notation "x <- c1 ;; c2" := (bind c1 (fun x => c2))
  (at level 61, c1 at next level, right associativity).
Notation "' pat <- c1 ;; c2" := (bind c1 (fun x => let 'pat := x in c2))
  (at level 61, pat pattern, c1 at next level, right associativity).

(** ** Comparisons of floats, read on rationals *)

Definition Qgtb (x y : Q) : bool := negb (Qle_bool x y).   (* x > y *)
Definition Qltb (x y : Q) : bool := negb (Qle_bool y x).   (* x < y *)

(** ** Three-dimensional arrays *)

Definition arr3 (A : Type) : Type := list (list (list A)).
Definition field : Type := arr3 Q.

Definition shape {A : Type} (a : arr3 A) : nat * nat * nat :=
  (length a, length (hd [] a), length (hd [] (hd [] a))).

Definition get {A : Type} (dflt : A) (a : arr3 A) (k j i : nat) : A :=
  nth i (nth j (nth k a []) []) dflt.

(** The array of shape [sh] whose cell [(k, j, i)] is [f k j i]. *)
Definition tab {A : Type} (sh : nat * nat * nat) (f : nat -> nat -> nat -> A) : arr3 A :=
  let '(nz, ny, nx) := sh in
  map (fun k => map (fun j => map (fun i => f k j i) (seq 0 nx)) (seq 0 ny)) (seq 0 nz).

Notation "a .[ k , j , i ]" := (get 0%Q a k j i)
  (at level 1, left associativity, format "a .[ k ,  j ,  i ]").
Notation "a .?[ k , j , i ]" := (get false a k j i)
  (at level 1, left associativity, format "a .?[ k ,  j ,  i ]").

(** Every plane has [ny] rows and every row [nx] cells, as in any numpy array. *)
Definition rectb {A : Type} (a : arr3 A) : bool :=
  let '(_, ny, nx) := shape a in
  forallb (fun p => (length p =? ny) && forallb (fun r => length r =? nx) p) a.

Definition in_bounds {A : Type} (a : arr3 A) (k j i : nat) : Prop :=
  let '(nz, ny, nx) := shape a in k < nz /\ j < ny /\ i < nx.

(** [data[index] = rhs[index]] for a boolean array [index]: the cells
    selected by [index] take the value of the right-hand side, which is only
    evaluated there; the others keep theirs. *)
Definition set_where (data : field) (index : arr3 bool) (rhs : nat -> nat -> nat -> Q) : field :=
  tab (shape data) (fun k j i => if index.?[k, j, i] then rhs k j i else data.[k, j, i]).

(** [np.count_nonzero] of a boolean array. *)
Definition count_nonzero (a : arr3 bool) : nat :=
  list_sum (map (fun p => list_sum (map (fun r => length (filter (fun b : bool => b) r)) p)) a).

Definition bit (b : bool) : nat := if b then 1 else 0.

(** ** neighbours, neighbours_z *)

(** [(x != missing_val).astype(float)] *)
Definition valid_of (x missing_val : Q) : Q :=
  if Qeq_bool x missing_val then 0%Q else 1%Q.

Definition neighbours (data : field) (missing_val : Q)
  : result (field * field * field * field * field * field * field * field * field) :=
  let '(nz, ny, nx) := shape data in
  (* data[...,0] needs a first column and data[...,0,:] a first row *)
  if (nx =? 0) || (ny =? 0) then Raise IndexError else
  let sh := shape data in
  let data_w := tab sh (fun k j i => if i =? 0 then data.[k, j, 0] else data.[k, j, i - 1]) in
  let data_e := tab sh (fun k j i => if i =? nx - 1 then data.[k, j, nx - 1] else data.[k, j, i + 1]) in
  let data_s := tab sh (fun k j i => if j =? 0 then data.[k, 0, i] else data.[k, j - 1, i]) in
  let data_n := tab sh (fun k j i => if j =? ny - 1 then data.[k, ny - 1, i] else data.[k, j + 1, i]) in
  let valid_w := tab sh (fun k j i => valid_of data_w.[k, j, i] missing_val) in
  let valid_e := tab sh (fun k j i => valid_of data_e.[k, j, i] missing_val) in
  let valid_s := tab sh (fun k j i => valid_of data_s.[k, j, i] missing_val) in
  let valid_n := tab sh (fun k j i => valid_of data_n.[k, j, i] missing_val) in
  let num_valid_neighbours :=
    tab sh (fun k j i => valid_w.[k, j, i] + valid_e.[k, j, i] + valid_s.[k, j, i] + valid_n.[k, j, i])%Q in
  Ok (data_w, data_e, data_s, data_n, valid_w, valid_e, valid_s, valid_n, num_valid_neighbours).

Definition neighbours_z (data : field) (missing_val : Q)
  : result (field * field * field * field * field) :=
  let '(nz, ny, nx) := shape data in
  (* data[...,0,:,:] needs a first level *)
  if nz =? 0 then Raise IndexError else
  let sh := shape data in
  let data_u := tab sh (fun k j i => if k =? 0 then data.[0, j, i] else data.[k - 1, j, i]) in
  let data_d := tab sh (fun k j i => if k =? nz - 1 then data.[nz - 1, j, i] else data.[k + 1, j, i]) in
  let valid_u := tab sh (fun k j i => valid_of data_u.[k, j, i] missing_val) in
  let valid_d := tab sh (fun k j i => valid_of data_d.[k, j, i] missing_val) in
  let num_valid_neighbours_z := tab sh (fun k j i => valid_u.[k, j, i] + valid_d.[k, j, i])%Q in
  Ok (data_u, data_d, valid_u, valid_d, num_valid_neighbours_z).

(** ** extend_into_mask *)

(** A numpy MaskedArray: the values and the boolean mask of the same shape. *)
Record MaskedArray : Type := masked_array { ma_data : field; ma_mask : arr3 bool }.

(** The argument is a MaskedArray when [masked=True] and a regular array
    otherwise, as the comment above the function requires. *)
Definition array_of (masked : bool) : Type := if masked then MaskedArray else field.

(** Body of the loop [for iter in range(num_iters)]. *)
Definition extend_iteration (data : field) (missing_val : Q) (use_3d : bool) : result field :=
  '(data_w, data_e, data_s, data_n, valid_w, valid_e, valid_s, valid_n, num_valid_neighbours)
     <- neighbours data missing_val ;;
  let sh := shape data in
  let index := tab sh (fun k j i =>
      Qeq_bool data.[k, j, i] missing_val && Qgtb num_valid_neighbours.[k, j, i] 0) in
  let data := set_where data index (fun k j i =>
      (data_w.[k, j, i] * valid_w.[k, j, i] + data_e.[k, j, i] * valid_e.[k, j, i]
       + data_s.[k, j, i] * valid_s.[k, j, i] + data_n.[k, j, i] * valid_n.[k, j, i])
      / num_valid_neighbours.[k, j, i])%Q in
  if use_3d then
    (* the callee returns (data_u, data_d, valid_u, valid_d, n); the caller
       unpacks them in this order of names *)
    '(data_d, data_u, valid_d, valid_u, num_valid_neighbours_z)
       <- neighbours_z data missing_val ;;
    let index := tab sh (fun k j i =>
        Qeq_bool data.[k, j, i] missing_val && Qeq_bool num_valid_neighbours.[k, j, i] 0
        && Qgtb num_valid_neighbours_z.[k, j, i] 0) in
    let data := set_where data index (fun k j i =>
        (data_u.[k, j, i] * valid_u.[k, j, i] + data_d.[k, j, i] * valid_d.[k, j, i])
        / num_valid_neighbours_z.[k, j, i])%Q in
    Ok data
  else Ok data.

(** [for iter in range(n): data = body(data)] *)
Fixpoint for_range (n : nat) (body : field -> result field) (data : field) : result field :=
  match n with
  | O => Ok data
  | S n' => data' <- body data ;; for_range n' body data'
  end.

(** Entry: [data_unmasked = data.data; data_unmasked[data.mask] = missing_val]. *)
Definition unmask (masked : bool) : array_of masked -> Q -> field :=
  match masked return array_of masked -> Q -> field with
  | true => fun data missing_val =>
      set_where (ma_data data) (ma_mask data) (fun _ _ _ => missing_val)
  | false => fun data _ => data
  end.

(** Exit: [data = ma.masked_where(data==missing_val, data)]; the name [ma]
    is looked up among the module's globals. *)
Definition remask (masked : bool) : field -> Q -> result (array_of masked) :=
  match masked return field -> Q -> result (array_of masked) with
  | true => fun data missing_val =>
      _ <- lookup_global "ma" ;;
      Ok (masked_array data
            (tab (shape data) (fun k j i => Qeq_bool data.[k, j, i] missing_val)))
  | false => fun data _ => Ok data
  end.

Definition extend_into_mask (masked : bool) (data : array_of masked) (missing_val : Q)
    (use_3d : bool) (num_iters : nat) : result (array_of masked) :=
  if negb (Qeq_bool missing_val (-9999)) && masked then Raise ConflictingConfigError else
  let data := unmask masked data missing_val in
  data <- for_range num_iters (fun data => extend_iteration data missing_val use_3d) data ;;
  remask masked data missing_val.

(** ** discard_and_fill *)

(** [(data==missing_val)*fill] *)
Definition missing_and_required (data : field) (fill : arr3 bool) (missing_val : Q) : arr3 bool :=
  tab (shape data) (fun k j i => Qeq_bool data.[k, j, i] missing_val && fill.?[k, j, i]).

(** The [while num_missing > 0] loop; [fuel] bounds the number of times its
    body is entered, and [None] means the bound was reached. *)
Fixpoint fill_loop (fuel : nat) (data : field) (fill : arr3 bool) (missing_val : Q)
    (use_3d : bool) (num_missing : nat) : option (result field) :=
  if 0 <? num_missing then
    match fuel with
    | O => None
    | S fuel' =>
        match extend_into_mask false data missing_val use_3d 1 with
        | Raise e => Some (Raise e)
        | Ok data =>
            let num_missing_old := num_missing in
            let num_missing := count_nonzero (missing_and_required data fill missing_val) in
            if num_missing =? num_missing_old then Some (Raise ConvergenceError)
            else fill_loop fuel' data fill missing_val use_3d num_missing
        end
    end
  else Some (Ok data).

Definition discard_and_fill (fuel : nat) (data : field) (discard fill : arr3 bool)
    (missing_val : Q) (use_3d : bool) : option (result field) :=
  (* First throw away the points we don't trust *)
  let data := set_where data discard (fun _ _ _ => missing_val) in
  (* Now fill the values we need to fill *)
  let num_missing := count_nonzero (missing_and_required data fill missing_val) in
  fill_loop fuel data fill missing_val use_3d num_missing.

(** ** interp_slice_helper *)

(** [np.nonzero(a)[0]] for a one-dimensional boolean array: the indices of
    its true entries, in increasing order. *)
Fixpoint nonzero_from (start : nat) (a : list bool) : list nat :=
  match a with
  | [] => []
  | b :: a' => if b then start :: nonzero_from (S start) a' else nonzero_from (S start) a'
  end.

Definition nonzero (a : list bool) : list nat := nonzero_from 0 a.

(** [l[0]] *)
Definition first {A : Type} (l : list A) : result A :=
  match l with
  | [] => Raise IndexError
  | x :: _ => Ok x
  end.

(** [data[i]] and [data[-1]] on a one-dimensional array, where the index is
    known to be in range. *)
Definition item (data : list Q) (i : nat) : Q := nth i data 0%Q.
Definition last_item (data : list Q) : Q := nth (length data - 1) data 0%Q.

Definition interp_slice_helper (data : list Q) (val0 : Q) (lon : bool)
  : result (nat * nat * Q * Q) :=
  (* Find the first index greater than val0 *)
  i2 <- first (nonzero (map (fun x => Qgtb x val0) data)) ;;
  (* Find the last index less than val0 *)
  if 0 <? i2 then
    (* General case *)
    let i1 := i2 - 1 in
    (* Calculate the weighting coefficients *)
    let c2 := ((val0 - item data i1) / (item data i2 - item data i1))%Q in
    let c1 := (1 - c2)%Q in
    Ok (i1, i2, c1, c2)
  else if lon && (i2 =? 0) && Qltb (last_item data - 360) val0 then
    (* Longitude wraps around *)
    let i1 := length data - 1 in
    let c2 := ((val0 - (item data i1 - 360)) / (item data i2 - (item data i1 - 360)))%Q in
    let c1 := (1 - c2)%Q in
    Ok (i1, i2, c1, c2)
  else Raise (OutOfBoundsError val0).

(** ** interp_bdry *)

(** The arrays of a boundary slice have one or two dimensions: they are kept
    as their shape and their cells in row-major order.  Coordinates and
    wet fractions are regular arrays, the source data is a MaskedArray. *)
Record ndarray : Type := nd_array { nd_shape : list nat; nd_cells : list Q }.
Record masked_ndarray : Type :=
  masked_nd_array { mnd_shape : list nat; mnd_cells : list Q; mnd_mask : list bool }.

(** [np.meshgrid(x, y)] of two one-dimensional arrays: both results have
    shape [(len(y), len(x))]; the first repeats [x] along the rows, the
    second holds [y[r]] all along row [r]. *)
Definition meshgrid (x y : ndarray) : ndarray * ndarray :=
  let nx := length (nd_cells x) in
  let ny := length (nd_cells y) in
  (nd_array [ny; nx] (concat (repeat (nd_cells x) ny)),
   nd_array [ny; nx] (flat_map (fun v => repeat v nx) (nd_cells y))).

(** [a[index]] for a boolean array [index] of the shape of [a]: the selected
    cells, as a one-dimensional array. *)
Fixpoint select {A : Type} (cells : list A) (index : list bool) : list A :=
  match cells, index with
  | c :: cells', b :: index' => if b then c :: select cells' index' else select cells' index'
  | _, _ => []
  end.

Definition shape_eqb (s1 s2 : list nat) : bool :=
  if list_eq_dec Nat.eq_dec s1 s2 then true else false.

Definition boolean_index (a : ndarray) (index_shape : list nat) (index : list bool)
  : result ndarray :=
  if shape_eqb (nd_shape a) index_shape then
    let cells := select (nd_cells a) index in
    Ok (nd_array [length cells] cells)
  else Raise IndexError.

(** The attribute [mask] of a regular array: there is none. *)
Definition ndarray_mask (a : ndarray) : result (list bool) := Raise (AttributeError "mask").

Section InterpBdry.

(** scipy's [interp2d(x, y, z, kind='linear', bounds_error=False)], which
    returns the function to call on the target coordinates. *)
Variable interp2d : ndarray -> ndarray -> masked_ndarray -> ndarray -> ndarray -> ndarray.

Definition interp_bdry (source_h source_z : ndarray) (source_data : masked_ndarray)
    (target_h target_z target_hfac : ndarray) (depth_dependent : bool) : result ndarray :=
  let '(source_h, source_z) :=
    if depth_dependent then
      (* Mesh the source axes *)
      meshgrid source_h source_z
    else (source_h, source_z) in
  (* Remove masked values *)
  let not_masked := map negb (mnd_mask source_data) in
  source_h <- boolean_index source_h (mnd_shape source_data) not_masked ;;
  let source_data :=
    let cells := select (mnd_cells source_data) not_masked in
    masked_nd_array [length cells] cells (select (mnd_mask source_data) not_masked) in
  source_z <-
    (if depth_dependent then
       mask <- ndarray_mask source_z ;;
       boolean_index source_z (nd_shape source_z) (map negb mask)
     else Ok source_z) ;;
  (* Interpolate; [interpolant] is a local variable, bound in the first branch only *)
  data_interp <-
    (if depth_dependent then
       let interpolant := Some (interp2d source_h source_z source_data) in
       match interpolant with
       | Some f => Ok (f target_h target_z)
       | None => Raise (UnboundLocalError "interpolant")
       end
     else
       let interpolant : option (ndarray -> ndarray) := None in
       match interpolant with
       | Some f => Ok (f target_h)
       | None => Raise (UnboundLocalError "interpolant")
       end) ;;
  (* Fill the land mask with zeros *)
  Ok (nd_array (nd_shape data_interp)
        (map (fun '(x, hfac) => if Qeq_bool hfac 0 then 0%Q else x)
             (combine (nd_cells data_interp) (nd_cells target_hfac)))).

End InterpBdry.

(** ** interp_reg *)

Inductive gtype : Type := gtype_t | gtype_u | gtype_v | gtype_psi | gtype_w.

(** Modelled from the spec: the Grid class, which is not among the sources.
    A grid exposes, for each point family, its one-dimensional longitude and
    latitude axes, and its depth axis [z] of negative heights. *)
Record Grid : Type := grid {
  lon_1d : gtype -> list Q;
  lat_1d : gtype -> list Q;
  grid_z : list Q
}.

(** [grid.get_lon_lat(gtype=gtype, dim=1)] *)
Definition get_lon_lat (g : Grid) (gt : gtype) : list Q * list Q := (lon_1d g gt, lat_1d g gt).

(** Modelled from the spec: scipy's RegularGridInterpolator with
    [bounds_error=False, fill_value=fill_value], which is not among the
    sources.  It is the piecewise-linear interpolant over regular axes: a
    point outside the bounds of an axis gets the fill value; inside, the
    interval of each axis that holds the coordinate is found and the values
    at its two ends are blended linearly, one axis after the other. *)
Definition out_of_bounds (axis : list Q) (x : Q) : bool :=
  Qltb x (item axis 0) || Qgtb x (last_item axis).

(** Number of leading entries below [x]: on an increasing axis, the place of
    [x] in it. *)
Fixpoint searchsorted (axis : list Q) (x : Q) : nat :=
  match axis with
  | [] => 0
  | a :: rest => if Qltb a x then S (searchsorted rest x) else 0
  end.

(** The interval [axis[i], axis[i+1]] used for [x], kept within the axis. *)
Definition interval (axis : list Q) (x : Q) : nat :=
  Nat.min (searchsorted axis x - 1) (length axis - 2).

Definition linear (axis : list Q) (x : Q) (v : nat -> Q) : Q :=
  let i := interval axis x in
  let t := ((x - item axis i) / (item axis (i + 1)%nat - item axis i))%Q in
  ((1 - t) * v i + t * v (i + 1)%nat)%Q.

Definition interpolant_2d (lat lon : list Q) (values : list (list Q)) (fill_value : Q)
    (y x : Q) : Q :=
  if out_of_bounds lat y || out_of_bounds lon x then fill_value
  else linear lat y (fun j => linear lon x (fun i => nth i (nth j values []) 0%Q)).

Definition interpolant_3d (depth lat lon : list Q) (values : field) (fill_value : Q)
    (z y x : Q) : Q :=
  if out_of_bounds depth z || out_of_bounds lat y || out_of_bounds lon x then fill_value
  else linear depth z (fun k => linear lat y (fun j => linear lon x (fun i => values.[k, j, i]))).

(** The checks made when the interpolant is built: every axis must be
    strictly ascending and hold as many points as the values have entries
    along that dimension; otherwise a ValueError is raised. *)
Fixpoint strictly_ascending (axis : list Q) : bool :=
  match axis with
  | a :: rest =>
      match rest with
      | b :: _ => Qltb a b && strictly_ascending rest
      | [] => true
      end
  | [] => true
  end.

Definition shape_matches_2d (values : list (list Q)) (ny nx : nat) : bool :=
  (length values =? ny) && forallb (fun row => length row =? nx) values.

Definition shape_matches_3d (values : field) (nz ny nx : nat) : bool :=
  (length values =? nz) && forallb (fun plane => shape_matches_2d plane ny nx) values.

Definition RegularGridInterpolator_2d (lat lon : list Q) (values : list (list Q))
    (fill_value : Q) : result (Q -> Q -> Q) :=
  if strictly_ascending lat && strictly_ascending lon
     && shape_matches_2d values (length lat) (length lon)
  then Ok (interpolant_2d lat lon values fill_value)
  else Raise ValueError.

Definition RegularGridInterpolator_3d (depth lat lon : list Q) (values : field)
    (fill_value : Q) : result (Q -> Q -> Q -> Q) :=
  if strictly_ascending depth && strictly_ascending lat && strictly_ascending lon
     && shape_matches_3d values (length depth) (length lat) (length lon)
  then Ok (interpolant_3d depth lat lon values fill_value)
  else Raise ValueError.

(** The source data and the result have two dimensions when [dim=2] and
    three when [dim=3]. *)
Inductive grid_data : Type :=
| Data2D (values : list (list Q))
| Data3D (values : field).

Definition interp_reg (source_grid target_grid : Grid) (source_data : grid_data)
    (dim : nat) (gt : gtype) (fill_value : Q) : result grid_data :=
  (* Get the correct lat and lon on the source grid *)
  let '(source_lon, source_lat) := get_lon_lat source_grid gt in
  (* Build an interpolant *)
  interpolant <-
    (if dim =? 2 then
       match source_data with
       | Data2D values =>
           f <- RegularGridInterpolator_2d source_lat source_lon values fill_value ;;
           Ok (inl f)
       | Data3D _ => Raise ValueError
       end
     else if dim =? 3 then
       match source_data with
       | Data3D values =>
           f <- RegularGridInterpolator_3d (map Qopp (grid_z source_grid))
                  source_lat source_lon values fill_value ;;
           Ok (inr f)
       | Data2D _ => Raise ValueError
       end
     else Raise UsageError) ;;
  (* Get the correct lat and lon on the target grid *)
  let '(target_lon, target_lat) := get_lon_lat target_grid gt in
  match interpolant with
  | inl interpolant =>
      (* lon_2d[j][i] = target_lon[i], lat_2d[j][i] = target_lat[j] *)
      Ok (Data2D (map (fun lat => map (fun lon => interpolant lat lon) target_lon) target_lat))
  | inr interpolant =>
      (* the same on every level, with z_3d[k][j][i] = target_grid.z[k] *)
      Ok (Data3D (map (fun z =>
                    map (fun lat => map (fun lon => interpolant (- z)%Q lat lon) target_lon)
                        target_lat)
                  (grid_z target_grid)))
  end.

(** ** Cell-wise reading of one iteration

    The value each array of [neighbours], [neighbours_z] and of the loop
    body holds at one cell, written as a function of the cell. *)

Definition cell_w (d : field) (k j i : nat) : Q :=
  if i =? 0 then d.[k, j, 0] else d.[k, j, i - 1].
Definition cell_e (d : field) (k j i : nat) : Q :=
  let '(_, _, nx) := shape d in
  if i =? nx - 1 then d.[k, j, nx - 1] else d.[k, j, i + 1].
Definition cell_s (d : field) (k j i : nat) : Q :=
  if j =? 0 then d.[k, 0, i] else d.[k, j - 1, i].
Definition cell_n (d : field) (k j i : nat) : Q :=
  let '(_, ny, _) := shape d in
  if j =? ny - 1 then d.[k, ny - 1, i] else d.[k, j + 1, i].
Definition cell_u (d : field) (k j i : nat) : Q :=
  if k =? 0 then d.[0, j, i] else d.[k - 1, j, i].
Definition cell_d (d : field) (k j i : nat) : Q :=
  let '(nz, _, _) := shape d in
  if k =? nz - 1 then d.[nz - 1, j, i] else d.[k + 1, j, i].

Definition hcount (d : field) (mv : Q) (k j i : nat) : Q :=
  (valid_of (cell_w d k j i) mv + valid_of (cell_e d k j i) mv
   + valid_of (cell_s d k j i) mv + valid_of (cell_n d k j i) mv)%Q.

Definition zcount (d : field) (mv : Q) (k j i : nat) : Q :=
  (valid_of (cell_u d k j i) mv + valid_of (cell_d d k j i) mv)%Q.

(** The cell after the horizontal assignment. *)
Definition hfill (d : field) (mv : Q) (k j i : nat) : Q :=
  if Qeq_bool d.[k, j, i] mv && Qgtb (hcount d mv k j i) 0 then
    ((cell_w d k j i * valid_of (cell_w d k j i) mv
      + cell_e d k j i * valid_of (cell_e d k j i) mv
      + cell_s d k j i * valid_of (cell_s d k j i) mv
      + cell_n d k j i * valid_of (cell_n d k j i) mv) / hcount d mv k j i)%Q
  else d.[k, j, i].

(** The cell after the vertical assignment: [d0] is the field at the start
    of the iteration, [d1] the field after the horizontal assignment. *)
Definition vfill (d0 d1 : field) (mv : Q) (k j i : nat) : Q :=
  if Qeq_bool d1.[k, j, i] mv && Qeq_bool (hcount d0 mv k j i) 0
     && Qgtb (zcount d1 mv k j i) 0 then
    ((cell_d d1 k j i * valid_of (cell_d d1 k j i) mv
      + cell_u d1 k j i * valid_of (cell_u d1 k j i) mv) / zcount d1 mv k j i)%Q
  else d1.[k, j, i].

(** ** Vocabulary of the specification

    Positions of the neighbours of a cell, the values found there that are
    not the missing value, and their arithmetic mean. *)

Definition pos : Type := (nat * nat * nat)%type.

Definition at_pos (d : field) (p : pos) : Q := let '(k, j, i) := p in d.[k, j, i].

(** West, east, south and north of [(k, j, i)] in a field of shape [sh]; on
    an edge of the domain the cell itself stands in for the absent neighbour. *)
Definition horizontal_neighbours (sh : nat * nat * nat) (k j i : nat) : list pos :=
  let '(_, ny, nx) := sh in
  [ (k, j, if i =? 0 then i else i - 1);
    (k, j, if i =? nx - 1 then i else i + 1);
    (k, if j =? 0 then j else j - 1, i);
    (k, if j =? ny - 1 then j else j + 1, i) ].

(** Above and below, with the same convention at the top and the bottom. *)
Definition vertical_neighbours (sh : nat * nat * nat) (k j i : nat) : list pos :=
  let '(nz, _, _) := sh in
  [ (if k =? 0 then k else k - 1, j, i);
    (if k =? nz - 1 then k else k + 1, j, i) ].

Definition valid_values (d : field) (mv : Q) (ps : list pos) : list Q :=
  filter (fun v => negb (Qeq_bool v mv)) (map (at_pos d) ps).

Definition Qsum (vs : list Q) : Q := fold_right Qplus 0%Q vs.

Definition mean (vs : list Q) : Q := (Qsum vs / inject_Z (Z.of_nat (length vs)))%Q.

Definition nonempty {A : Type} (a : arr3 A) : Prop :=
  let '(nz, ny, nx) := shape a in 0 < nz /\ 0 < ny /\ 0 < nx.

(** What one iteration leaves in a cell, in either mode. *)
Definition iteration_cell (mv : Q) (use_3d : bool) (d : field) (k j i : nat) : Q :=
  if use_3d then vfill d (tab (shape d) (hfill d mv)) mv k j i else hfill d mv k j i.

(** ** Sample inputs *)

(** lat = [-80, -70, -60], lon = [-180, -90, 0, 90]: 5.0 everywhere but one
    missing cell. *)
Definition field_3x4 : field :=
  [[ [5; 5; 5; 5]; [5; -9999; 5; 5]; [5; 5; 5; 5] ]]%Q.

Definition one_missing_3x4 (j0 i0 : nat) : field :=
  tab (1, 3, 4) (fun _ j i => if (j =? j0) && (i =? i0) then (-9999)%Q else 5%Q).

(** Two levels of one row: the western cell of the upper level has no valid
    horizontal neighbour when the iteration starts, but its eastern
    neighbour is filled during the horizontal assignment. *)
Definition field_2x1x3 : field :=
  [ [ [-9999; -9999; 7] ]; [ [3; 4; 9] ] ]%Q.

(** Number of cells that are both missing and required. *)
Definition num_missing_required (d : field) (fill : arr3 bool) (mv : Q) : nat :=
  count_nonzero (missing_and_required d fill mv).

(** One Mask-Filler iteration, as [discard_and_fill] calls it. *)
Definition mask_filler_iteration (mv : Q) (use_3d : bool) (d : field) : result field :=
  extend_into_mask false d mv use_3d 1.

(** A set of cells closed under the neighbour relation of the mode: with a
    cell it contains its four horizontal neighbours and, in 3D mode, its two
    vertical ones.  No path of the neighbour graph leaves such a set. *)
Definition closed_region (use_3d : bool) (sh : nat * nat * nat)
    (S : nat -> nat -> nat -> bool) : Prop :=
  forall k j i,
    (let '(nz, ny, nx) := sh in k < nz /\ j < ny /\ i < nx) ->
    S k j i = true ->
    Forall (fun p : pos => let '(k', j', i') := p in S k' j' i' = true)
      (horizontal_neighbours sh k j i
       ++ if use_3d then vertical_neighbours sh k j i else []).

(** Every cell of the region [S] holds the missing value. *)
Definition all_missing_in (S : nat -> nat -> nat -> bool) (mv : Q) (d : field) : Prop :=
  forall k j i, in_bounds d k j i -> S k j i = true -> Qeq_bool d.[k, j, i] mv = true.

(** Boolean masks over the sample fields. *)
Definition mask_const (sh : nat * nat * nat) (b : bool) : arr3 bool := tab sh (fun _ _ _ => b).

(** Two levels of a 2 x 2 plane: the upper level holds no valid value. *)
Definition field_2x2x2 : field :=
  [ [ [-9999; -9999]; [-9999; -9999] ]; [ [1; 2]; [3; 4] ] ]%Q.

Definition upper_level : nat -> nat -> nat -> bool := fun k _ _ => k =? 0.

(** The longitudes -179, -178, ..., 179. *)
Definition lon_axis : list Q :=
  map (fun n => inject_Z (Z.of_nat n - 179)) (seq 0 359).

(** The sample field as a MaskedArray: the missing cell is masked and holds
    an arbitrary value. *)
Definition masked_3x4 : MaskedArray :=
  masked_array [[ [5; 5; 5; 5]; [5; 0; 5; 5]; [5; 5; 5; 5] ]]%Q
    (tab (1, 3, 4) (fun _ j i => (j =? 1) && (i =? 1))).

(** A boundary slice without depth: three source points, one of them masked. *)
Definition bdry_source_h : ndarray := nd_array [3] [0; 1; 2]%Q.
Definition bdry_source_z : ndarray := nd_array [2] [-10; -20]%Q.
Definition bdry_source_data : masked_ndarray :=
  masked_nd_array [3] [4; 0; 6]%Q [false; true; false].
Definition bdry_target_h : ndarray := nd_array [2] [1 # 2; 3 # 2]%Q.
Definition bdry_target_z : ndarray := nd_array [2] [-10; -20]%Q.
Definition bdry_target_hfac : ndarray := nd_array [2] [1; 0]%Q.

(** The same with depth: two levels of three source points. *)
Definition bdry_source_data_2d : masked_ndarray :=
  masked_nd_array [2; 3] [4; 0; 6; 7; 8; 9]%Q [false; true; false; false; false; false].
Definition bdry_target_hfac_2d : ndarray := nd_array [2; 2] [1; 0; 1; 1]%Q.

(** An axis whose entries increase strictly. *)
Definition increasing (axis : list Q) : Prop :=
  forall a b, a < b -> b < length axis -> (item axis a < item axis b)%Q.

(** Two small grids: the target reaches beyond the source to the north and
    to the east. *)
Definition source_grid_2x3 : Grid :=
  grid (fun _ => [0; 10; 20]%Q) (fun _ => [-70; -60]%Q) [-5; -15]%Q.
Definition target_grid_3x4 : Grid :=
  grid (fun _ => [0; 5; 20; 25]%Q) (fun _ => [-70; -65; -55]%Q) [-5; -10]%Q.
Definition source_values_2x3 : list (list Q) := [ [1; 2; 3]; [4; 5; 6] ]%Q.

(** ** Proof automation *)

(** Case analysis on the validity of each neighbour of a cell. *)
Ltac split_valid mv :=
  repeat match goal with
    | |- context [Qeq_bool ?x mv] =>
        match x with
        | cell_w _ _ _ _ => idtac | cell_e _ _ _ _ => idtac
        | cell_s _ _ _ _ => idtac | cell_n _ _ _ _ => idtac
        | cell_u _ _ _ _ => idtac | cell_d _ _ _ _ => idtac
        end;
        destruct (Qeq_bool x mv)
    end.

(** Comparisons of a count of valid neighbours, once it is a number. *)
Ltac decide_counts :=
  repeat match goal with
    | |- context [Qgtb ?q 0] => change (Qgtb q 0) with true
    | |- context [Qgtb ?q 0] => change (Qgtb q 0) with false
    | |- context [Qeq_bool ?q 0] => change (Qeq_bool q 0) with true
    | |- context [Qeq_bool ?q 0] => change (Qeq_bool q 0) with false
    end.

(** * Further functions of interpolation.py *)

(** ** remove_isolated_cells *)

(** The number of isolated cells is printed, not returned. *)
Definition remove_isolated_cells (data : field) (mask_val : Q) : result field :=
  '(_, _, _, _, _, _, _, _, num_valid_neighbours) <- neighbours data mask_val ;;
  let index := tab (shape data) (fun k j i =>
      negb (Qeq_bool data.[k, j, i] mask_val) && Qeq_bool num_valid_neighbours.[k, j, i] 0) in
  Ok (set_where data index (fun _ _ _ => mask_val)).

(** The cell [remove_isolated_cells] leaves at [(k, j, i)]. *)
Definition isolated_removed (d : field) (mv : Q) (k j i : nat) : Q :=
  if negb (Qeq_bool d.[k, j, i] mv) && Qeq_bool (hcount d mv k j i) 0 then mv
  else d.[k, j, i].

(** A cell on the rim of the horizontal domain. *)
Definition on_edge (sh : nat * nat * nat) (j i : nat) : Prop :=
  let '(_, ny, nx) := sh in i = 0 \/ i = nx - 1 \/ j = 0 \/ j = ny - 1.

(** An ocean mask (1 is ocean, 0 is land) with one lone cell in a corner and
    one in the middle. *)
Definition mask_3x3 : field := [[ [1; 0; 0]; [0; 1; 0]; [0; 0; 0] ]]%Q.

(** ** Distance to valid data *)

(** [far n d mv k j i]: every cell within [n] steps of [(k, j, i)] along the
    horizontal neighbour relation holds the missing value. *)
Fixpoint far (n : nat) (d : field) (mv : Q) (k j i : nat) : bool :=
  Qeq_bool d.[k, j, i] mv &&
  match n with
  | O => true
  | S n' =>
      forallb (fun p : pos => let '(k', j', i') := p in far n' d mv k' j' i')
        (horizontal_neighbours (shape d) k j i)
  end.

(** A row of six cells with valid data at its western end only. *)
Definition row_1x6 : field := [[ [1; -9999; -9999; -9999; -9999; -9999] ]]%Q.

(** ** interp_grid *)

Section InterpGrid.

(** [mask_3d], [mask_land_zice] and [mask_land] of utils.py are not among
    the sources: each receives the array, the grid, the grid type and
    [time_dependent], and returns a MaskedArray. *)
Variables mask_3d mask_land_zice mask_land : field -> Grid -> gtype -> bool -> MaskedArray.

(** The array has three dimensions here (time or depth, lat, lon), so it is
    depth-dependent exactly when it is not time-dependent.  The two error
    exits ([print 'Error (interp_grid): ...'; sys.exit()]) are
    [ConflictingConfigError] for [mask_shelf] on a depth-dependent field
    and [UsageError] for a pair of grid types that is not supported. *)
Definition interp_grid (data : MaskedArray) (grid : Grid) (gtype_in gtype_out : gtype)
    (time_dependent mask_shelf : bool) : result MaskedArray :=
  (* Figure out if the field is depth-dependent *)
  let depth_dependent := negb time_dependent in
  (* Make sure we're not trying to mask the ice shelf from a depth-dependent field *)
  if mask_shelf && depth_dependent then Raise ConflictingConfigError else
  let data_tmp :=
    match gtype_in with
    | gtype_u | gtype_v | gtype_psi | gtype_w =>
        (* Fill the mask with zeros *)
        set_where (ma_data data) (ma_mask data) (fun _ _ _ => 0%Q)
    | gtype_t => ma_data data
    end in
  (* Interpolate *)
  let '(nz, ny, nx) := shape data_tmp in
  data_interp <-
    match gtype_in, gtype_out with
    | gtype_u, gtype_t =>
        (* Midpoints in the x direction; extend the easternmost column *)
        if nx =? 0 then Raise IndexError else
        Ok (tab (shape data_tmp) (fun k j i =>
              if i =? nx - 1 then data_tmp.[k, j, nx - 1]
              else ((1 # 2) * (data_tmp.[k, j, i] + data_tmp.[k, j, i + 1]))%Q))
    | gtype_v, gtype_t =>
        (* Midpoints in the y direction; extend the northernmost row *)
        if ny =? 0 then Raise IndexError else
        Ok (tab (shape data_tmp) (fun k j i =>
              if j =? ny - 1 then data_tmp.[k, ny - 1, i]
              else ((1 # 2) * (data_tmp.[k, j, i] + data_tmp.[k, j + 1, i]))%Q))
    | _, _ => Raise UsageError
    end ;;
  (* Now apply the mask *)
  if depth_dependent then Ok (mask_3d data_interp grid gtype_out time_dependent)
  else if mask_shelf then Ok (mask_land_zice data_interp grid gtype_out time_dependent)
  else Ok (mask_land data_interp grid gtype_out time_dependent).

End InterpGrid.

(** A velocity field of ones without masked cells, and a masking function
    that masks nothing. *)
Definition ones_1x2x3 : MaskedArray :=
  masked_array [[ [1; 1; 1]; [1; 1; 1] ]]%Q (tab (1, 2, 3) (fun _ _ _ => false)).

Definition mask_nothing (data : field) (_ : Grid) (_ : gtype) (_ : bool) : MaskedArray :=
  masked_array data (tab (shape data) (fun _ _ _ => false)).

(** ** interp_topo *)

(** [np.linspace(start, stop, num=num)]: [num] evenly spaced values, the
    last one set to [stop]. *)
Definition linspace (start stop : Q) (num : nat) : list Q :=
  let step := ((stop - start) / inject_Z (Z.of_nat (num - 1)))%Q in
  let y := map (fun k => (inject_Z (Z.of_nat k) * step + start)%Q) (seq 0 num) in
  if 1 <? num then removelast y ++ [stop] else y.

(** [0.5*(edges[1:] + edges[:-1])] *)
Definition midpoints (edges : list Q) : list Q :=
  map (fun '(a, b) => ((1 # 2) * (a + b))%Q) (combine (tl edges) (removelast edges)).

(** [np.mean] of a two-dimensional array; [None] stands for the nan that
    numpy returns for an array without entries. *)
Definition np_mean (a : list (list Q)) : option Q :=
  match concat a with
  | [] => None
  | cells => Some (mean cells)
  end.

(** [a[j, i]] on a two-dimensional array, with non-negative indices. *)
Definition index2 (a : list (list Q)) (j i : nat) : result Q :=
  match nth_error a j with
  | Some row =>
      match nth_error row i with
      | Some v => Ok v
      | None => Raise IndexError
      end
  | None => Raise IndexError
  end.

(** A [for] loop that fills one entry per turn and stops at the first error. *)
Fixpoint mapM {A B : Type} (f : A -> result B) (l : list A) : result (list B) :=
  match l with
  | [] => Ok []
  | x :: l' => y <- f x ;; ys <- mapM f l' ;; Ok (y :: ys)
  end.

Section InterpTopo.

(** scipy's [RectBivariateSpline(y, x, data)]: the fit may fail; when it
    succeeds it gives the function that evaluates the spline on the mesh
    of its two arguments. *)
Variable RectBivariateSpline :
  list Q -> list Q -> list (list Q) -> result (list Q -> list Q -> list (list Q)).

Definition interp_topo (x y : list Q) (data x_interp y_interp : list (list Q))
    (n_subgrid : nat) : result (list (list (option Q))) :=
  (* x_interp and y_interp are the edges of the grid cells, so the number of
     cells is 1 less; np.empty refuses a negative size *)
  let rows := length y_interp in
  let cols := length (hd [] x_interp) in
  if (rows =? 0) || (cols =? 0) then Raise ValueError else
  let num_j := rows - 1 in
  let num_i := cols - 1 in
  interpolant <- RectBivariateSpline y x data ;;
  (* Loop over grid cells *)
  mapM (fun j => mapM (fun i =>
      (* First identify the boundaries so that x and y are strictly increasing *)
      xa <- index2 x_interp j i ;;
      xb <- index2 x_interp j (i + 1) ;;
      let '(x_start, x_end) := if Qltb xa xb then (xa, xb) else (xb, xa) in
      ya <- index2 y_interp j i ;;
      yb <- index2 y_interp (j + 1) i ;;
      let '(y_start, y_end) := if Qltb ya yb then (ya, yb) else (yb, ya) in
      (* Define edges of the sub-cells *)
      let x_edges := linspace x_start x_end (n_subgrid + 1) in
      let y_edges := linspace y_start y_end (n_subgrid + 1) in
      (* Calculate centres of the sub-cells *)
      let x_vals := midpoints x_edges in
      let y_vals := midpoints y_edges in
      (* Interpolate to the finer grid, then average over those points *)
      Ok (np_mean (interpolant y_vals x_vals)))
    (seq 0 num_i)) (seq 0 num_j).

End InterpTopo.

(** The sub-cell centres of the interval between two edges, whichever of
    the two is the smaller: [lo + (2k+1)/(2n) * (hi - lo)] for [k < n]. *)
Definition Qlo (a b : Q) : Q := if Qltb a b then a else b.
Definition Qhi (a b : Q) : Q := if Qltb a b then b else a.
Definition centre (lo hi : Q) (n k : nat) : Q :=
  (lo + inject_Z (2 * Z.of_nat k + 1) / inject_Z (2 * Z.of_nat n) * (hi - lo))%Q.

(** A spline that is [c] everywhere, and the edges of a 1 x 2 grid of cells
    whose x edges decrease. *)
Definition constant_spline (c : Q) (_ _ : list Q) (_ : list (list Q))
  : result (list Q -> list Q -> list (list Q)) :=
  Ok (fun ys xs => map (fun _ => map (fun _ => c) xs) ys).
Definition x_edges_2x3 : list (list Q) := [ [4; 2; 0]; [4; 2; 0] ]%Q.
Definition y_edges_2x3 : list (list Q) := [ [0; 0; 0]; [3; 3; 3] ]%Q.

(** The value [interp_topo] computes for the cell [(j, i)] when the fit has
    given the function [f]. *)
Definition topo_cell (f : list Q -> list Q -> list (list Q))
    (x_interp y_interp : list (list Q)) (n_subgrid j i : nat) : option Q :=
  let xa := nth i (nth j x_interp []) 0%Q in
  let xb := nth (i + 1) (nth j x_interp []) 0%Q in
  let ya := nth i (nth j y_interp []) 0%Q in
  let yb := nth i (nth (j + 1) y_interp []) 0%Q in
  np_mean (f (midpoints (linspace (Qlo ya yb) (Qhi ya yb) (n_subgrid + 1)))
             (midpoints (linspace (Qlo xa xb) (Qhi xa xb) (n_subgrid + 1)))).

(** * Proofs *)

(** ** Arrays *)

Lemma nth_map_seq {A} (f : nat -> A) (n i : nat) (d : A) :
  i < n -> nth i (map f (seq 0 n)) d = f i.
Proof.
  intros Hi. rewrite (nth_indep _ d (f 0)) by (rewrite length_map, length_seq; lia).
  rewrite map_nth, seq_nth by lia. reflexivity.
Qed.

Lemma get_tab {A} (dflt : A) nz ny nx (f : nat -> nat -> nat -> A) k j i :
  k < nz -> j < ny -> i < nx -> get dflt (tab (nz, ny, nx) f) k j i = f k j i.
Proof.
  intros Hk Hj Hi. unfold get, tab.
  rewrite (nth_map_seq _ _ Hk), (nth_map_seq _ _ Hj), (nth_map_seq _ _ Hi). reflexivity.
Qed.

Lemma shape_tab {A} nz ny nx (f : nat -> nat -> nat -> A) :
  0 < nz -> 0 < ny -> shape (tab (nz, ny, nx) f) = (nz, ny, nx).
Proof.
  intros Hz Hy. unfold shape, tab.
  destruct nz as [|nz]; [lia|]. destruct ny as [|ny]; [lia|].
  cbn [seq map hd length]. rewrite !length_map, !length_seq. reflexivity.
Qed.

Lemma tab_ext {A} nz ny nx (f g : nat -> nat -> nat -> A) :
  (forall k j i, k < nz -> j < ny -> i < nx -> f k j i = g k j i) ->
  tab (nz, ny, nx) f = tab (nz, ny, nx) g.
Proof.
  intros H. unfold tab.
  apply map_ext_in; intros k Hk. apply in_seq in Hk.
  apply map_ext_in; intros j Hj. apply in_seq in Hj.
  apply map_ext_in; intros i Hi. apply in_seq in Hi.
  apply H; lia.
Qed.

Lemma map_seq_nth {A} (l : list A) (d : A) :
  map (fun i => nth i l d) (seq 0 (length l)) = l.
Proof.
  apply nth_ext with (d := d) (d' := d).
  - now rewrite length_map, length_seq.
  - intros n Hn. rewrite length_map, length_seq in Hn. now rewrite nth_map_seq.
Qed.

Lemma rectb_spec {A} (a : arr3 A) :
  rectb a = true <->
  (forall p, In p a -> length p = snd (fst (shape a)) /\
                       forall r, In r p -> length r = snd (shape a)).
Proof.
  unfold rectb. cbn [shape fst snd]. rewrite forallb_forall. split; intros H p Hp.
  - specialize (H p Hp). apply andb_prop in H as [H1 H2]. apply Nat.eqb_eq in H1.
    split; [exact H1|]. rewrite forallb_forall in H2. intros r Hr. apply Nat.eqb_eq. auto.
  - destruct (H p Hp) as [H1 H2]. apply andb_true_intro; split.
    + now apply Nat.eqb_eq.
    + apply forallb_forall. intros r Hr. apply Nat.eqb_eq. auto.
Qed.

Lemma tab_get {A} (dflt : A) (a : arr3 A) :
  rectb a = true -> tab (shape a) (get dflt a) = a.
Proof.
  intros Hr. rewrite rectb_spec in Hr. unfold tab, get. cbn [shape fst snd] in *.
  etransitivity; [| apply (map_seq_nth a [])].
  apply map_ext_in; intros k Hk. apply in_seq in Hk.
  assert (Hin : In (nth k a []) a) by (apply nth_In; lia).
  destruct (Hr _ Hin) as [Hlen Hrows].
  etransitivity; [| apply (map_seq_nth (nth k a []) [])]. rewrite Hlen.
  apply map_ext_in; intros j Hj. apply in_seq in Hj.
  assert (Hin2 : In (nth j (nth k a []) []) (nth k a [])) by (apply nth_In; lia).
  etransitivity; [| apply (map_seq_nth (nth j (nth k a []) []) dflt)].
  rewrite (Hrows _ Hin2). reflexivity.
Qed.
Lemma extend_iteration_eq (d : field) (mv : Q) (use_3d : bool) nz ny nx :
  shape d = (nz, ny, nx) -> 0 < nz -> 0 < ny -> 0 < nx ->
  extend_iteration d mv use_3d =
  Ok (if use_3d then tab (nz, ny, nx) (vfill d (tab (nz, ny, nx) (hfill d mv)) mv)
      else tab (nz, ny, nx) (hfill d mv)).
Proof.
  intros Hs Hz Hy Hx.
  assert (Hh : forall k j i, k < nz -> j < ny -> i < nx -> True) by auto.
  unfold extend_iteration, neighbours, set_where. rewrite Hs.
  replace ((nx =? 0) || (ny =? 0)) with false
    by (symmetry; apply orb_false_iff; split; apply Nat.eqb_neq; lia).
  cbn [bind].
  match goal with |- (if _ then _ else Ok ?h) = _ =>
    assert (E1 : h = tab (nz, ny, nx) (hfill d mv)) end.
  { apply tab_ext; intros k j i Hk Hj Hi.
    rewrite !get_tab by assumption.
    unfold hfill, hcount, cell_w, cell_e, cell_s, cell_n. rewrite Hs. reflexivity. }
  rewrite E1. destruct use_3d; [|reflexivity].
  unfold neighbours_z. rewrite shape_tab by assumption.
  replace (nz =? 0) with false by (symmetry; apply Nat.eqb_neq; lia).
  cbn [bind]. f_equal.
  apply tab_ext; intros k j i Hk Hj Hi.
  unfold vfill, zcount, hcount, cell_w, cell_e, cell_s, cell_n, cell_u, cell_d.
  rewrite Hs, shape_tab by assumption.
  rewrite !(@get_tab _ _ _ _ _ _ k j i) by assumption. reflexivity.
Qed.

(** ** One iteration, cell by cell *)

Section Iteration.

Variables (d : field) (mv : Q).

Lemma extend_iteration_ok (use_3d : bool) :
  nonempty d ->
  extend_iteration d mv use_3d =
  Ok (if use_3d then tab (shape d) (vfill d (tab (shape d) (hfill d mv)) mv)
      else tab (shape d) (hfill d mv)).
Proof.
  unfold nonempty. destruct (shape d) as [[nz ny] nx] eqn:Hs. intros (Hz & Hy & Hx).
  now apply extend_iteration_eq.
Qed.

Lemma in_bounds_nonempty {A} (a : arr3 A) k j i : in_bounds a k j i -> nonempty a.
Proof.
  unfold in_bounds, nonempty. destruct (shape a) as [[nz ny] nx]. lia.
Qed.

Lemma get_tab_shape {A} (dflt : A) (a : field) (f : nat -> nat -> nat -> A) k j i :
  in_bounds a k j i -> get dflt (tab (shape a) f) k j i = f k j i.
Proof.
  unfold in_bounds. destruct (shape a) as [[nz ny] nx]. intros (Hk & Hj & Hi).
  now apply get_tab.
Qed.

Lemma shape_tab_shape {A B} (a : arr3 A) (f : nat -> nat -> nat -> B) :
  nonempty a -> shape (tab (shape a) f) = shape a.
Proof.
  unfold nonempty. destruct (shape a) as [[nz ny] nx]. intros (Hz & Hy & Hx).
  now apply shape_tab.
Qed.

(** The shifted arrays of [neighbours] hold the values at the neighbouring
    positions. *)
Lemma horizontal_values k j i :
  map (at_pos d) (horizontal_neighbours (shape d) k j i) =
  [cell_w d k j i; cell_e d k j i; cell_s d k j i; cell_n d k j i].
Proof.
  unfold horizontal_neighbours, cell_w, cell_e, cell_s, cell_n.
  destruct (shape d) as [[nz ny] nx]. cbn [map at_pos].
  destruct (i =? 0) eqn:Ei; [apply Nat.eqb_eq in Ei; subst i|];
  destruct (j =? 0) eqn:Ej; [apply Nat.eqb_eq in Ej; subst j| | apply Nat.eqb_eq in Ej; subst j|].
  all: repeat match goal with
       | |- context [?a =? ?b] =>
           let E := fresh "E" in
           destruct (a =? b) eqn:E; [apply Nat.eqb_eq in E; try rewrite <- E|]
       end; reflexivity.
Qed.

Lemma vertical_values (d1 : field) k j i :
  map (at_pos d1) (vertical_neighbours (shape d1) k j i) =
  [cell_u d1 k j i; cell_d d1 k j i].
Proof.
  unfold vertical_neighbours, cell_u, cell_d.
  destruct (shape d1) as [[nz ny] nx]. cbn [map at_pos].
  destruct (k =? 0) eqn:Ek; [apply Nat.eqb_eq in Ek; subst k|].
  all: repeat match goal with
       | |- context [?a =? ?b] =>
           let E := fresh "E" in
           destruct (a =? b) eqn:E; [apply Nat.eqb_eq in E; try rewrite <- E|]
       end; reflexivity.
Qed.

End Iteration.

Section Means.

Variable mv : Q.

(** The horizontal assignment writes the mean of the valid neighbours. *)
Lemma hfill_mean (d : field) k j i :
  Qeq_bool d.[k, j, i] mv = true ->
  valid_values d mv (horizontal_neighbours (shape d) k j i) <> [] ->
  (hfill d mv k j i == mean (valid_values d mv (horizontal_neighbours (shape d) k j i)))%Q.
Proof.
  intros Hm. unfold valid_values. rewrite horizontal_values.
  unfold hfill, hcount, valid_of. rewrite Hm. cbn [filter].
  split_valid mv; cbn [negb filter]; intros Hne; try congruence;
    decide_counts; cbn [andb]; unfold mean, Qsum;
    cbn [fold_right length Z.of_nat Pos.of_succ_nat Pos.succ inject_Z]; field.
Qed.

(** No valid horizontal neighbour: the count is zero, and conversely. *)
Lemma hcount_zero (d : field) k j i :
  Qeq_bool (hcount d mv k j i) 0 = true <->
  valid_values d mv (horizontal_neighbours (shape d) k j i) = [].
Proof.
  unfold valid_values. rewrite horizontal_values.
  unfold hcount, valid_of. cbn [filter].
  split_valid mv; cbn [negb filter]; decide_counts; split; congruence.
Qed.

Lemma hcount_pos (d : field) k j i :
  Qgtb (hcount d mv k j i) 0 = negb (Qeq_bool (hcount d mv k j i) 0).
Proof.
  unfold hcount, valid_of. split_valid mv; reflexivity.
Qed.

(** The vertical assignment writes the mean of the valid vertical
    neighbours, read in the field [d1] left by the horizontal assignment. *)
Lemma vfill_mean (d0 d1 : field) k j i :
  Qeq_bool d1.[k, j, i] mv = true ->
  valid_values d0 mv (horizontal_neighbours (shape d0) k j i) = [] ->
  valid_values d1 mv (vertical_neighbours (shape d1) k j i) <> [] ->
  (vfill d0 d1 mv k j i == mean (valid_values d1 mv (vertical_neighbours (shape d1) k j i)))%Q.
Proof.
  intros Hm Hh. apply hcount_zero in Hh. unfold valid_values. rewrite vertical_values.
  unfold vfill. rewrite Hm, Hh. unfold zcount, valid_of. cbn [filter].
  split_valid mv; cbn [negb filter]; intros Hne; try congruence;
    decide_counts; cbn [andb]; unfold mean, Qsum;
    cbn [fold_right length Z.of_nat Pos.of_succ_nat Pos.succ inject_Z]; field.
Qed.

Lemma vfill_priority (d0 d1 : field) k j i :
  valid_values d0 mv (horizontal_neighbours (shape d0) k j i) <> [] ->
  vfill d0 d1 mv k j i = d1.[k, j, i].
Proof.
  intros Hh. unfold vfill.
  destruct (Qeq_bool (hcount d0 mv k j i) 0) eqn:E.
  - apply hcount_zero in E. contradiction.
  - now rewrite andb_false_r.
Qed.

Lemma vfill_no_vertical (d0 d1 : field) k j i :
  valid_values d1 mv (vertical_neighbours (shape d1) k j i) = [] ->
  vfill d0 d1 mv k j i = d1.[k, j, i].
Proof.
  unfold valid_values. rewrite vertical_values. unfold vfill, zcount, valid_of.
  cbn [filter]. split_valid mv; cbn [negb filter]; intros Hne; try congruence.
  decide_counts. now rewrite andb_false_r.
Qed.

(** Cells that do not hold the missing value are never assigned. *)
Lemma hfill_valid (d : field) k j i :
  Qeq_bool d.[k, j, i] mv = false -> hfill d mv k j i = d.[k, j, i].
Proof. intros H. unfold hfill. now rewrite H. Qed.

Lemma vfill_valid (d0 d1 : field) k j i :
  Qeq_bool d1.[k, j, i] mv = false -> vfill d0 d1 mv k j i = d1.[k, j, i].
Proof. intros H. unfold vfill. now rewrite H. Qed.

End Means.

(** ** Frame of one iteration and of the whole loop *)

Lemma rectb_tab {A} (sh : nat * nat * nat) (f : nat -> nat -> nat -> A) :
  rectb (tab sh f) = true.
Proof.
  destruct sh as [[nz ny] nx]. apply rectb_spec. intros p Hp.
  destruct nz as [|nz]; [contradiction|].
  assert (Hp' := Hp). unfold tab in Hp'. apply in_map_iff in Hp' as (k & <- & _).
  unfold shape, tab. cbn [seq map hd fst snd]. rewrite !length_map, !length_seq.
  split; [reflexivity|]. intros r Hr.
  destruct ny as [|ny]; [contradiction|].
  apply in_map_iff in Hr as (j & <- & _).
  cbn [seq map hd]. now rewrite !length_map, !length_seq.
Qed.

Lemma in_bounds_shape {A B} (a : arr3 A) (b : arr3 B) k j i :
  shape a = shape b -> in_bounds a k j i -> in_bounds b k j i.
Proof. unfold in_bounds. now intros ->. Qed.

Lemma nonempty_shape {A B} (a : arr3 A) (b : arr3 B) :
  shape a = shape b -> nonempty a -> nonempty b.
Proof. unfold nonempty. now intros ->. Qed.

Section Frame.

Variables (mv : Q) (use_3d : bool).

Lemma extend_iteration_cells (d : field) :
  nonempty d ->
  extend_iteration d mv use_3d = Ok (tab (shape d) (iteration_cell mv use_3d d)).
Proof.
  intros Hne. rewrite extend_iteration_ok by assumption.
  unfold iteration_cell. destruct use_3d; reflexivity.
Qed.

Lemma iteration_cell_valid (d : field) k j i :
  in_bounds d k j i ->
  Qeq_bool d.[k, j, i] mv = false -> iteration_cell mv use_3d d k j i = d.[k, j, i].
Proof.
  intros Hb Hv. unfold iteration_cell. destruct use_3d.
  - rewrite vfill_valid; rewrite get_tab_shape by assumption;
      rewrite hfill_valid by assumption; auto.
  - now apply hfill_valid.
Qed.

Lemma extend_iteration_frame (d : field) :
  nonempty d ->
  exists d', extend_iteration d mv use_3d = Ok d' /\
    shape d' = shape d /\ rectb d' = true /\
    forall k j i, in_bounds d k j i ->
      Qeq_bool d.[k, j, i] mv = false -> d'.[k, j, i] = d.[k, j, i].
Proof.
  intros Hne. exists (tab (shape d) (iteration_cell mv use_3d d)). repeat split.
  - now apply extend_iteration_cells.
  - now apply shape_tab_shape.
  - apply rectb_tab.
  - intros k j i Hb Hv. rewrite get_tab_shape by assumption.
    now apply iteration_cell_valid.
Qed.

Lemma for_range_frame (n : nat) : forall d : field,
  nonempty d ->
  exists d', for_range n (fun data => extend_iteration data mv use_3d) d = Ok d' /\
    shape d' = shape d /\ (rectb d = true -> rectb d' = true) /\
    forall k j i, in_bounds d k j i ->
      Qeq_bool d.[k, j, i] mv = false -> d'.[k, j, i] = d.[k, j, i].
Proof.
  induction n as [|n IH]; intros d Hne.
  - exists d. cbn. auto.
  - destruct (extend_iteration_frame Hne) as (d1 & E1 & Hs1 & Hr1 & Hf1).
    assert (Hne1 : nonempty d1)
      by (eapply nonempty_shape; [symmetry; exact Hs1 | exact Hne]).
    destruct (IH d1 Hne1) as (d2 & E2 & Hs2 & Hr2 & Hf2).
    exists d2. cbn [for_range]. rewrite E1. cbn [bind]. repeat split.
    + exact E2.
    + congruence.
    + auto.
    + intros k j i Hb Hv.
      assert (Hb1 : in_bounds d1 k j i)
        by (eapply in_bounds_shape; [symmetry; exact Hs1 | exact Hb]).
      rewrite Hf2; [now apply Hf1|assumption|].
      rewrite Hf1; assumption.
Qed.

End Frame.

Lemma array_ext (a b : field) :
  rectb a = true -> rectb b = true -> shape a = shape b ->
  (forall k j i, in_bounds a k j i -> a.[k, j, i] = b.[k, j, i]) -> a = b.
Proof.
  intros Ha Hb Hs H. rewrite <- (tab_get 0%Q a Ha), <- (tab_get 0%Q b Hb), <- Hs.
  destruct (shape a) as [[nz ny] nx] eqn:Es. apply tab_ext. intros k j i Hk Hj Hi.
  apply H. unfold in_bounds. rewrite Es. auto.
Qed.

(** C10: [extend_into_mask], called on a regular array with any missing
    value, mode and number of iterations, returns a field of the same shape
    in which every cell that did not hold the missing value on entry has kept
    its value; a field without any missing cell is returned as it was. *)
Theorem extend_into_mask_keeps_valid_cells
    (data : field) (missing_val : Q) (use_3d : bool) (num_iters : nat) :
  rectb data = true -> nonempty data ->
  exists out : field,
    extend_into_mask false data missing_val use_3d num_iters = Ok out /\
    shape out = shape data /\
    (forall k j i, in_bounds data k j i ->
       Qeq_bool data.[k, j, i] missing_val = false -> out.[k, j, i] = data.[k, j, i]) /\
    ((forall k j i, in_bounds data k j i -> Qeq_bool data.[k, j, i] missing_val = false) ->
     out = data).
Proof.
  intros Hr Hne.
  destruct (for_range_frame missing_val use_3d num_iters Hne) as (out & E & Hs & Hro & Hf).
  exists out. unfold extend_into_mask. rewrite andb_false_r. cbn [unmask remask].
  rewrite E. cbn [bind]. repeat split; auto.
  intros Hall. apply array_ext; auto.
  intros k j i Hb.
  assert (Hb' : in_bounds data k j i) by (eapply in_bounds_shape; [exact Hs | exact Hb]).
  apply Hf; [|apply Hall]; assumption.
Qed.

Lemma extend_into_mask_keeps_valid_cells_witness :
  rectb field_3x4 = true /\ nonempty field_3x4 /\
  exists out : field,
    extend_into_mask false field_3x4 (-9999) true 3 = Ok out /\
    shape out = shape field_3x4 /\
    (forall k j i, in_bounds field_3x4 k j i ->
       Qeq_bool field_3x4.[k, j, i] (-9999) = false -> out.[k, j, i] = field_3x4.[k, j, i]) /\
    ((forall k j i, in_bounds field_3x4 k j i ->
        Qeq_bool field_3x4.[k, j, i] (-9999) = false) ->
     out = field_3x4).
Proof.
  assert (Hr : rectb field_3x4 = true) by reflexivity.
  assert (Hne : nonempty field_3x4) by (unfold nonempty; cbn; lia).
  split; [exact Hr|]. split; [exact Hne|].
  exact (@extend_into_mask_keeps_valid_cells field_3x4 (-9999) true 3 Hr Hne).
Defined.

(** ** The mean of equal values *)

Lemma Qsum_const (c : Q) (vs : list Q) :
  Forall (fun v => v == c)%Q vs -> (Qsum vs == c * inject_Z (Z.of_nat (length vs)))%Q.
Proof.
  induction 1 as [|v vs Hv _ IH].
  - cbn. ring.
  - cbn [Qsum fold_right length]. fold (Qsum vs). rewrite IH, Hv, Nat2Z.inj_succ.
    unfold Z.succ. rewrite inject_Z_plus. ring.
Qed.

Lemma mean_const (c : Q) (vs : list Q) :
  vs <> [] -> Forall (fun v => v == c)%Q vs -> (mean vs == c)%Q.
Proof.
  intros Hne Hall. unfold mean. rewrite (Qsum_const Hall).
  assert (Hn : ~ (inject_Z (Z.of_nat (length vs)) == 0)%Q).
  { destruct vs as [|v vs]; [congruence|]. cbn [length]. rewrite Nat2Z.inj_succ.
    unfold Qeq. cbn. lia. }
  field. exact Hn.
Qed.

(** C2: in one iteration of the Mask Filler, in either mode, a cell that holds
    the missing value and has at least one horizontal neighbour (west, east,
    south, north; the cell itself stands in at an edge) that does not, is set
    to the arithmetic mean of those valid neighbours; so when they all hold
    the same value, 5.0 say, the cell is set to that value. *)
Theorem extend_iteration_horizontal_mean
    (data : field) (missing_val : Q) (use_3d : bool) (k j i : nat) :
  in_bounds data k j i ->
  Qeq_bool data.[k, j, i] missing_val = true ->
  valid_values data missing_val (horizontal_neighbours (shape data) k j i) <> [] ->
  exists out : field,
    extend_iteration data missing_val use_3d = Ok out /\
    (out.[k, j, i] ==
       mean (valid_values data missing_val (horizontal_neighbours (shape data) k j i)))%Q /\
    forall c : Q,
      Forall (fun v => v == c)%Q
        (valid_values data missing_val (horizontal_neighbours (shape data) k j i)) ->
      (out.[k, j, i] == c)%Q.
Proof.
  intros Hb Hm Hv.
  assert (Hne : nonempty data) by (eapply in_bounds_nonempty; exact Hb).
  exists (tab (shape data) (iteration_cell missing_val use_3d data)).
  split; [now apply extend_iteration_cells|].
  assert (Hcell : (iteration_cell missing_val use_3d data k j i ==
            mean (valid_values data missing_val (horizontal_neighbours (shape data) k j i)))%Q).
  { unfold iteration_cell. destruct use_3d.
    - rewrite vfill_priority by assumption. rewrite get_tab_shape by assumption.
      now apply hfill_mean.
    - now apply hfill_mean. }
  rewrite get_tab_shape by assumption. split; [exact Hcell|].
  intros c Hall. rewrite Hcell. now apply mean_const.
Qed.

Lemma extend_iteration_horizontal_mean_witness :
  in_bounds field_3x4 0 1 1 /\
  Qeq_bool field_3x4.[0, 1, 1] (-9999) = true /\
  valid_values field_3x4 (-9999) (horizontal_neighbours (shape field_3x4) 0 1 1) <> [] /\
  exists out : field,
    extend_iteration field_3x4 (-9999) false = Ok out /\
    (out.[0, 1, 1] ==
       mean (valid_values field_3x4 (-9999) (horizontal_neighbours (shape field_3x4) 0 1 1)))%Q /\
    forall c : Q,
      Forall (fun v => v == c)%Q
        (valid_values field_3x4 (-9999) (horizontal_neighbours (shape field_3x4) 0 1 1)) ->
      (out.[0, 1, 1] == c)%Q.
Proof.
  assert (Hb : in_bounds field_3x4 0 1 1) by (unfold in_bounds; cbn; lia).
  assert (Hm : Qeq_bool field_3x4.[0, 1, 1] (-9999) = true) by reflexivity.
  assert (Hv : valid_values field_3x4 (-9999)
                 (horizontal_neighbours (shape field_3x4) 0 1 1) <> [])
    by (vm_compute; discriminate).
  split; [exact Hb|]. split; [exact Hm|]. split; [exact Hv|].
  exact (@extend_iteration_horizontal_mean field_3x4 (-9999) false 0 1 1 Hb Hm Hv).
Defined.

(** The end-to-end example of the specification: whichever of the twelve
    cells of the 3 x 4 field is the missing one, a call with one iteration
    returns 5.0 there, and leaves 5.0 everywhere else. *)
Example extend_into_mask_3x4_example (j0 i0 : nat) :
  j0 < 3 -> i0 < 4 ->
  exists out : field,
    extend_into_mask false (one_missing_3x4 j0 i0) (-9999) false 1 = Ok out /\
    forall j i, j < 3 -> i < 4 -> (out.[0, j, i] == 5)%Q.
Proof.
  intros Hj Hi.
  assert (Hc : (j0 = 0 \/ j0 = 1 \/ j0 = 2) /\ (i0 = 0 \/ i0 = 1 \/ i0 = 2 \/ i0 = 3)) by lia.
  destruct Hc as [[-> | [-> | ->]] [-> | [-> | [-> | ->]]]];
    (eexists; split; [vm_compute; reflexivity|]);
    intros j i Hj' Hi';
    assert (Hc : (j = 0 \/ j = 1 \/ j = 2) /\ (i = 0 \/ i = 1 \/ i = 2 \/ i = 3)) by lia;
    destruct Hc as [[-> | [-> | ->]] [-> | [-> | [-> | ->]]]]; reflexivity.
Qed.

(** C6: in a 3D-mode iteration, write [after_h] for the field left by the
    horizontal assignment of that iteration.  A cell that has a valid
    horizontal neighbour in the field the iteration started from is left as
    the horizontal assignment made it (horizontal filling has priority).  A
    cell that is still missing in [after_h], had no valid horizontal
    neighbour in the field the iteration started from, and has a valid
    vertical neighbour (above, below; the cell itself stands in at the top
    and the bottom) in [after_h], is set to the mean of those valid vertical
    neighbours in the same iteration. *)
Theorem extend_iteration_vertical_fallback
    (data after_h : field) (missing_val : Q) (k j i : nat) :
  in_bounds data k j i ->
  extend_iteration data missing_val false = Ok after_h ->
  exists out : field,
    extend_iteration data missing_val true = Ok out /\
    (valid_values data missing_val (horizontal_neighbours (shape data) k j i) <> [] ->
     out.[k, j, i] = after_h.[k, j, i]) /\
    (Qeq_bool after_h.[k, j, i] missing_val = true ->
     valid_values data missing_val (horizontal_neighbours (shape data) k j i) = [] ->
     valid_values after_h missing_val (vertical_neighbours (shape data) k j i) <> [] ->
     (out.[k, j, i] ==
        mean (valid_values after_h missing_val (vertical_neighbours (shape data) k j i)))%Q).
Proof.
  intros Hb Hh.
  assert (Hne : nonempty data) by (eapply in_bounds_nonempty; exact Hb).
  assert (Eh : after_h = tab (shape data) (hfill data missing_val))
    by (rewrite extend_iteration_ok in Hh by assumption; congruence).
  subst after_h. clear Hh.
  exists (tab (shape data) (vfill data (tab (shape data) (hfill data missing_val)) missing_val)).
  split; [now rewrite extend_iteration_ok|].
  rewrite !get_tab_shape by assumption. split.
  - intros Hv. rewrite vfill_priority by assumption. now rewrite get_tab_shape.
  - intros Hm Hz Hv.
    assert (Hs : shape (tab (shape data) (hfill data missing_val)) = shape data)
      by now apply shape_tab_shape.
    pose proof (@vfill_mean missing_val data
                  (tab (shape data) (hfill data missing_val)) k j i) as Hmean.
    rewrite Hs in Hmean. apply Hmean; try assumption.
    now rewrite get_tab_shape.
Qed.

Lemma extend_iteration_vertical_fallback_witness :
  in_bounds field_2x1x3 0 0 0 /\
  extend_iteration field_2x1x3 (-9999) false = Ok [ [ [-9999; 7 # 1; 7] ]; [ [3; 4; 9] ] ]%Q /\
  exists out : field,
    extend_iteration field_2x1x3 (-9999) true = Ok out /\
    (valid_values field_2x1x3 (-9999) (horizontal_neighbours (shape field_2x1x3) 0 0 0) <> [] ->
     out.[0, 0, 0] = [ [ [-9999; 7 # 1; 7] ]; [ [3; 4; 9] ] ]%Q.[0, 0, 0]) /\
    (Qeq_bool [ [ [-9999; 7 # 1; 7] ]; [ [3; 4; 9] ] ]%Q.[0, 0, 0] (-9999) = true ->
     valid_values field_2x1x3 (-9999) (horizontal_neighbours (shape field_2x1x3) 0 0 0) = [] ->
     valid_values [ [ [-9999; 7 # 1; 7] ]; [ [3; 4; 9] ] ]%Q (-9999)
       (vertical_neighbours (shape field_2x1x3) 0 0 0) <> [] ->
     (out.[0, 0, 0] ==
        mean (valid_values [ [ [-9999; 7 # 1; 7] ]; [ [3; 4; 9] ] ]%Q (-9999)
                (vertical_neighbours (shape field_2x1x3) 0 0 0)))%Q).
Proof.
  assert (Hb : in_bounds field_2x1x3 0 0 0) by (unfold in_bounds; cbn; lia).
  assert (Hh : extend_iteration field_2x1x3 (-9999) false
               = Ok [ [ [-9999; 7 # 1; 7] ]; [ [3; 4; 9] ] ]%Q) by (vm_compute; reflexivity).
  split; [exact Hb|]. split; [exact Hh|].
  exact (@extend_iteration_vertical_fallback field_2x1x3 _ (-9999) 0 0 0 Hb Hh).
Defined.

(** On that field the western cell of the upper level gets the value found
    below it, although its eastern neighbour has become valid in the
    meantime: the count of horizontal neighbours is the one taken when the
    iteration started. *)
Example vertical_fallback_not_reevaluated :
  exists after_h out : field,
    extend_iteration field_2x1x3 (-9999) false = Ok after_h /\
    extend_iteration field_2x1x3 (-9999) true = Ok out /\
    valid_values field_2x1x3 (-9999) (horizontal_neighbours (shape field_2x1x3) 0 0 0) = [] /\
    valid_values after_h (-9999) (horizontal_neighbours (shape field_2x1x3) 0 0 0) <> [] /\
    (out.[0, 0, 0] == 3)%Q.
Proof.
  do 2 eexists. split; [vm_compute; reflexivity|]. split; [vm_compute; reflexivity|].
  split; [reflexivity|]. split; [vm_compute; discriminate|reflexivity].
Qed.

(** ** Counting cells *)

Lemma list_sum_map_le {A} (f g : A -> nat) (l : list A) :
  (forall x, In x l -> f x <= g x) -> list_sum (map f l) <= list_sum (map g l).
Proof.
  induction l as [|x l IH]; intros H; [cbn; lia|].
  cbn [map]. change (list_sum (f x :: map f l)) with (f x + list_sum (map f l)).
  change (list_sum (g x :: map g l)) with (g x + list_sum (map g l)).
  assert (f x <= g x) by (apply H; now left).
  assert (list_sum (map f l) <= list_sum (map g l)) by (apply IH; intros; apply H; now right).
  lia.
Qed.

Lemma list_sum_zero {A} (f : A -> nat) (l : list A) :
  (forall x, In x l -> f x = 0) -> list_sum (map f l) = 0.
Proof.
  induction l as [|x l IH]; intros H; [reflexivity|].
  cbn [map]. change (list_sum (f x :: map f l)) with (f x + list_sum (map f l)).
  rewrite H by (now left). rewrite IH; [reflexivity|]. intros; apply H; now right.
Qed.

Lemma list_sum_map_ge {A} (f : A -> nat) (l : list A) (x : A) :
  In x l -> f x <= list_sum (map f l).
Proof.
  induction l as [|y l IH]; intros H; [contradiction|].
  cbn [map]. change (list_sum (f y :: map f l)) with (f y + list_sum (map f l)).
  destruct H as [-> | H]; [lia|]. specialize (IH H). lia.
Qed.

Lemma count_nonzero_tab nz ny nx (f : nat -> nat -> nat -> bool) :
  count_nonzero (tab (nz, ny, nx) f) =
  list_sum (map (fun k => list_sum (map (fun j => list_sum (map (fun i => bit (f k j i))
    (seq 0 nx))) (seq 0 ny))) (seq 0 nz)).
Proof.
  unfold count_nonzero, tab. rewrite map_map. f_equal.
  apply map_ext; intros k. rewrite map_map. f_equal.
  apply map_ext; intros j.
  induction (seq 0 nx) as [|i l IH]; [reflexivity|].
  cbn [map filter]. destruct (f k j i); cbn [length bit list_sum]; rewrite IH; reflexivity.
Qed.

Lemma count_nonzero_le nz ny nx (f g : nat -> nat -> nat -> bool) :
  (forall k j i, k < nz -> j < ny -> i < nx -> f k j i = true -> g k j i = true) ->
  count_nonzero (tab (nz, ny, nx) f) <= count_nonzero (tab (nz, ny, nx) g).
Proof.
  intros H. rewrite !count_nonzero_tab.
  apply list_sum_map_le; intros k Hk. apply in_seq in Hk.
  apply list_sum_map_le; intros j Hj. apply in_seq in Hj.
  apply list_sum_map_le; intros i Hi. apply in_seq in Hi.
  destruct (f k j i) eqn:E; [|cbn; lia].
  rewrite H by (auto; lia). reflexivity.
Qed.

Lemma count_nonzero_pos nz ny nx (f : nat -> nat -> nat -> bool) k j i :
  k < nz -> j < ny -> i < nx -> f k j i = true ->
  0 < count_nonzero (tab (nz, ny, nx) f).
Proof.
  intros Hk Hj Hi Hf. rewrite count_nonzero_tab.
  eapply Nat.lt_le_trans;
    [|apply (list_sum_map_ge _ (seq 0 nz) k); apply in_seq; lia].
  eapply Nat.lt_le_trans;
    [|apply (list_sum_map_ge _ (seq 0 ny) j); apply in_seq; lia].
  eapply Nat.lt_le_trans;
    [|apply (list_sum_map_ge _ (seq 0 nx) i); apply in_seq; lia].
  cbv beta. rewrite Hf. cbn. lia.
Qed.

Lemma count_nonzero_zero nz ny nx (f : nat -> nat -> nat -> bool) k j i :
  count_nonzero (tab (nz, ny, nx) f) = 0 ->
  k < nz -> j < ny -> i < nx -> f k j i = false.
Proof.
  intros H0 Hk Hj Hi. destruct (f k j i) eqn:E; [|reflexivity].
  pose proof (count_nonzero_pos f Hk Hj Hi E). lia.
Qed.

(** ** The fill loop *)

Section FillLoop.

Variables (fill : arr3 bool) (mv : Q) (use_3d : bool).

Lemma mask_filler_iteration_eq (d : field) :
  mask_filler_iteration mv use_3d d = extend_iteration d mv use_3d.
Proof.
  unfold mask_filler_iteration, extend_into_mask. rewrite andb_false_r.
  cbn [unmask remask for_range]. destruct (extend_iteration d mv use_3d); reflexivity.
Qed.

Lemma step_frame (d : field) :
  nonempty d ->
  exists d', mask_filler_iteration mv use_3d d = Ok d' /\ shape d' = shape d /\
    forall k j i, in_bounds d k j i ->
      Qeq_bool d.[k, j, i] mv = false -> d'.[k, j, i] = d.[k, j, i].
Proof.
  intros Hne. destruct (extend_iteration_frame mv use_3d Hne) as (d' & E & Hs & _ & Hf).
  exists d'. rewrite mask_filler_iteration_eq. auto.
Qed.

Lemma num_pos_nonempty (d : field) : 0 < num_missing_required d fill mv -> nonempty d.
Proof.
  unfold num_missing_required, missing_and_required, nonempty.
  destruct (shape d) as [[nz ny] nx]. rewrite count_nonzero_tab. intros H.
  destruct nz as [|nz]; [cbn in H; lia|].
  destruct ny as [|ny].
  { rewrite list_sum_zero in H; [lia|reflexivity]. }
  destruct nx as [|nx]; [|lia].
  rewrite list_sum_zero in H; [lia|]. intros k _.
  apply list_sum_zero. reflexivity.
Qed.

(** The number of missing and required cells never grows. *)
Lemma num_step_le (d d' : field) :
  nonempty d -> mask_filler_iteration mv use_3d d = Ok d' -> num_missing_required d' fill mv <= num_missing_required d fill mv.
Proof.
  intros Hne E. destruct (step_frame Hne) as (d1 & E1 & Hs & Hf).
  assert (d1 = d') by congruence. subst d1.
  unfold num_missing_required, missing_and_required. rewrite Hs.
  destruct (shape d) as [[nz ny] nx] eqn:Es.
  apply count_nonzero_le. intros k j i Hk Hj Hi H.
  apply andb_prop in H as [H1 H2]. rewrite H2, andb_true_r.
  destruct (Qeq_bool d.[k, j, i] mv) eqn:Ev; [reflexivity|].
  rewrite Hf in H1; [congruence| |assumption].
  unfold in_bounds. rewrite Es. auto.
Qed.

Lemma fill_loop_result (N : nat) : forall d : field,
  num_missing_required d fill mv <= N ->
  exists (n : nat) (dn : field) (r : result field),
    (forall fuel, num_missing_required d fill mv <= fuel -> fill_loop fuel d fill mv use_3d (num_missing_required d fill mv) = Some r) /\
    for_range n (mask_filler_iteration mv use_3d) d = Ok dn /\
    (forall m, m < n -> exists dm dm',
        for_range m (mask_filler_iteration mv use_3d) d = Ok dm /\ mask_filler_iteration mv use_3d dm = Ok dm' /\ num_missing_required dm' fill mv < num_missing_required dm fill mv) /\
    (num_missing_required dn fill mv = 0 /\ r = Ok dn \/
     0 < num_missing_required dn fill mv /\ r = Raise ConvergenceError /\
     exists dn', mask_filler_iteration mv use_3d dn = Ok dn' /\ num_missing_required dn' fill mv = num_missing_required dn fill mv).
Proof.
  induction N as [|N IH]; intros d HN.
  - exists 0, d, (Ok d). repeat split.
    + intros fuel _. destruct fuel; cbn [fill_loop];
        replace (0 <? num_missing_required d fill mv) with false by (symmetry; apply Nat.ltb_ge; lia); reflexivity.
    + intros m Hm. lia.
    + left. split; [lia|reflexivity].
  - destruct (Nat.eq_dec (num_missing_required d fill mv) 0) as [H0 | Hpos].
    { exists 0, d, (Ok d). repeat split.
      + intros fuel _. destruct fuel; cbn [fill_loop];
          replace (0 <? num_missing_required d fill mv) with false by (symmetry; apply Nat.ltb_ge; lia); reflexivity.
      + intros m Hm. lia.
      + left. split; [assumption|reflexivity]. }
    assert (Hne : nonempty d) by (apply num_pos_nonempty; lia).
    destruct (step_frame Hne) as (d1 & E1 & Hs1 & Hf1).
    pose proof (num_step_le Hne E1) as Hle.
    destruct (Nat.eq_dec (num_missing_required d1 fill mv) (num_missing_required d fill mv)) as [Heq | Hlt].
    { exists 0, d, (Raise ConvergenceError). repeat split.
      + intros fuel Hfuel. destruct fuel as [|fuel]; [lia|]. cbn [fill_loop].
        replace (0 <? num_missing_required d fill mv) with true by (symmetry; apply Nat.ltb_lt; lia).
        fold (mask_filler_iteration mv use_3d d). rewrite E1. fold (num_missing_required d1 fill mv).
        replace (num_missing_required d1 fill mv =? num_missing_required d fill mv) with true by (symmetry; apply Nat.eqb_eq; assumption).
        reflexivity.
      + intros m Hm. lia.
      + right. split; [lia|]. split; [reflexivity|]. exists d1. auto. }
    destruct (IH d1) as (n & dn & r & Hfuel1 & Hrun & Hprog & Hend); [lia|].
    exists (S n), dn, r. repeat split.
    + intros fuel Hfuel. destruct fuel as [|fuel]; [lia|]. cbn [fill_loop].
      replace (0 <? num_missing_required d fill mv) with true by (symmetry; apply Nat.ltb_lt; lia).
      fold (mask_filler_iteration mv use_3d d). rewrite E1. fold (num_missing_required d1 fill mv).
      replace (num_missing_required d1 fill mv =? num_missing_required d fill mv) with false by (symmetry; apply Nat.eqb_neq; assumption).
      apply Hfuel1. lia.
    + cbn [for_range]. rewrite E1. exact Hrun.
    + intros [|m] Hm.
      * exists d, d1. cbn [for_range]. repeat split; [assumption|lia].
      * destruct (Hprog m) as (dm & dm' & Em & Es & Hp); [lia|].
        exists dm, dm'. cbn [for_range]. rewrite E1. auto.
    + exact Hend.
Qed.

End FillLoop.

(** ** Regions without valid data *)

Lemma valid_values_nil (d : field) (mv : Q) (ps : list pos) :
  Forall (fun p => Qeq_bool (at_pos d p) mv = true) ps -> valid_values d mv ps = [].
Proof.
  unfold valid_values. induction 1 as [|p ps Hp _ IH]; [reflexivity|].
  cbn [map filter]. rewrite Hp. exact IH.
Qed.

Lemma horizontal_neighbours_in_bounds nz ny nx k j i :
  k < nz -> j < ny -> i < nx ->
  Forall (fun p : pos => let '(k', j', i') := p in k' < nz /\ j' < ny /\ i' < nx)
    (horizontal_neighbours (nz, ny, nx) k j i).
Proof.
  intros Hk Hj Hi. unfold horizontal_neighbours.
  repeat constructor; try assumption;
    match goal with |- context [?a =? ?b] =>
      destruct (a =? b) eqn:E; [|apply Nat.eqb_neq in E]; lia end.
Qed.

Lemma vertical_neighbours_in_bounds nz ny nx k j i :
  k < nz -> j < ny -> i < nx ->
  Forall (fun p : pos => let '(k', j', i') := p in k' < nz /\ j' < ny /\ i' < nx)
    (vertical_neighbours (nz, ny, nx) k j i).
Proof.
  intros Hk Hj Hi. unfold vertical_neighbours.
  repeat constructor; try assumption;
    match goal with |- context [?a =? ?b] =>
      destruct (a =? b) eqn:E; [|apply Nat.eqb_neq in E]; lia end.
Qed.

Section Region.

Variables (mv : Q) (S : nat -> nat -> nat -> bool).

Lemma region_no_horizontal (use_3d : bool) (d : field) k j i :
  closed_region use_3d (shape d) S -> all_missing_in S mv d ->
  in_bounds d k j i -> S k j i = true ->
  valid_values d mv (horizontal_neighbours (shape d) k j i) = [].
Proof.
  intros Hc Hm Hb HS. apply valid_values_nil.
  specialize (Hc k j i). unfold all_missing_in, in_bounds in *.
  destruct (shape d) as [[nz ny] nx] eqn:Es. destruct Hb as (Hk & Hj & Hi).
  specialize (Hc (conj Hk (conj Hj Hi)) HS). apply Forall_app in Hc as [Hc _].
  pose proof (horizontal_neighbours_in_bounds Hk Hj Hi) as Hin.
  rewrite Forall_forall in *. intros [[k' j'] i'] Hp.
  specialize (Hc _ Hp). specialize (Hin _ Hp). cbn [at_pos]. now apply Hm.
Qed.

Lemma region_hfill (use_3d : bool) (d : field) k j i :
  closed_region use_3d (shape d) S -> all_missing_in S mv d ->
  in_bounds d k j i -> S k j i = true ->
  hfill d mv k j i = d.[k, j, i].
Proof.
  intros Hc Hm Hb HS. pose proof (region_no_horizontal Hc Hm Hb HS) as Hz.
  apply hcount_zero in Hz. unfold hfill. rewrite hcount_pos, Hz.
  now rewrite andb_false_r.
Qed.

(** An iteration leaves every cell of such a region as it was. *)
Lemma region_iteration_cell (use_3d : bool) (d : field) k j i :
  closed_region use_3d (shape d) S -> all_missing_in S mv d ->
  in_bounds d k j i -> S k j i = true ->
  iteration_cell mv use_3d d k j i = d.[k, j, i].
Proof.
  intros Hc Hm Hb HS. unfold iteration_cell.
  destruct use_3d; [|now apply (@region_hfill false)].
  assert (Hne : nonempty d) by (eapply in_bounds_nonempty; exact Hb).
  assert (Hs : shape (tab (shape d) (hfill d mv)) = shape d) by now apply shape_tab_shape.
  rewrite vfill_no_vertical.
  - rewrite get_tab_shape by assumption. now apply (@region_hfill true).
  - rewrite Hs. apply valid_values_nil.
    pose proof (Hc k j i) as Hck. unfold in_bounds in Hb.
    destruct (shape d) as [[nz ny] nx] eqn:Es. destruct Hb as (Hk & Hj & Hi).
    specialize (Hck (conj Hk (conj Hj Hi)) HS). apply Forall_app in Hck as [_ Hck].
    pose proof (vertical_neighbours_in_bounds Hk Hj Hi) as Hin.
    rewrite Forall_forall in *. intros [[k' j'] i'] Hp.
    specialize (Hck _ Hp). specialize (Hin _ Hp). cbn [at_pos].
    assert (Hb' : in_bounds d k' j' i') by (unfold in_bounds; rewrite Es; exact Hin).
    rewrite <- Es, get_tab_shape by assumption.
    rewrite (@region_hfill true); auto. rewrite Es. exact Hc.
Qed.

Lemma region_step (use_3d : bool) (d d' : field) :
  nonempty d -> closed_region use_3d (shape d) S -> all_missing_in S mv d ->
  mask_filler_iteration mv use_3d d = Ok d' ->
  shape d' = shape d /\ all_missing_in S mv d'.
Proof.
  intros Hne Hc Hm E. rewrite mask_filler_iteration_eq in E.
  rewrite extend_iteration_cells in E by assumption.
  assert (d' = tab (shape d) (iteration_cell mv use_3d d)) by congruence. subst d'.
  assert (Hs : shape (tab (shape d) (iteration_cell mv use_3d d)) = shape d)
    by now apply shape_tab_shape.
  split; [exact Hs|]. intros k j i Hb HS.
  assert (Hb' : in_bounds d k j i) by (eapply in_bounds_shape; [exact Hs|exact Hb]).
  rewrite get_tab_shape by assumption.
  rewrite region_iteration_cell by assumption. now apply Hm.
Qed.

Lemma region_for_range (use_3d : bool) (n : nat) : forall d dn : field,
  nonempty d -> closed_region use_3d (shape d) S -> all_missing_in S mv d ->
  for_range n (mask_filler_iteration mv use_3d) d = Ok dn ->
  shape dn = shape d /\ all_missing_in S mv dn.
Proof.
  induction n as [|n IH]; intros d dn Hne Hc Hm E.
  - cbn in E. assert (dn = d) by congruence. subst dn. auto.
  - cbn [for_range] in E.
    destruct (mask_filler_iteration mv use_3d d) as [d1|e] eqn:E1; [|discriminate].
    cbn [bind] in E. destruct (region_step Hne Hc Hm E1) as [Hs1 Hm1].
    destruct (IH d1 dn) as [Hs Hmn]; try assumption.
    + eapply nonempty_shape; [symmetry; exact Hs1|exact Hne].
    + now rewrite Hs1.
    + split; [congruence|assumption].
Qed.

End Region.

(** C1: [discard_and_fill] first writes the missing value into every cell of
    the discard mask, giving [d0].  It then returns, for any bound on the
    number of turns of its loop that is at least the number of missing and
    required cells of [d0], one result [r].  There is a number [n] of
    Mask-Filler iterations, each of which lowered the number of missing and
    required cells, leading from [d0] to [dn], such that either no cell of
    [dn] is both missing and required and [r] is [dn], or some cell is, one
    more iteration leaves their number unchanged, and [r] is the convergence
    error.  In particular [r] is the convergence error whenever a set of
    cells closed under the neighbour relation holds no valid value in [d0]
    and contains a required cell. *)
Theorem discard_and_fill_fixed_point
    (data : field) (discard fill : arr3 bool) (missing_val : Q) (use_3d : bool) :
  shape discard = shape data -> shape fill = shape data ->
  exists (d0 : field) (n : nat) (dn : field) (r : result field),
    d0 = set_where data discard (fun _ _ _ => missing_val) /\
    (forall k j i, in_bounds data k j i ->
       d0.[k, j, i] = if discard.?[k, j, i] then missing_val else data.[k, j, i]) /\
    (forall fuel, num_missing_required d0 fill missing_val <= fuel ->
       discard_and_fill fuel data discard fill missing_val use_3d = Some r) /\
    for_range n (mask_filler_iteration missing_val use_3d) d0 = Ok dn /\
    (forall m, m < n -> exists dm dm',
       for_range m (mask_filler_iteration missing_val use_3d) d0 = Ok dm /\
       mask_filler_iteration missing_val use_3d dm = Ok dm' /\
       num_missing_required dm' fill missing_val < num_missing_required dm fill missing_val) /\
    (num_missing_required dn fill missing_val = 0 /\ r = Ok dn \/
     0 < num_missing_required dn fill missing_val /\ r = Raise ConvergenceError /\
     exists dn', mask_filler_iteration missing_val use_3d dn = Ok dn' /\
       num_missing_required dn' fill missing_val = num_missing_required dn fill missing_val) /\
    (forall S : nat -> nat -> nat -> bool,
       closed_region use_3d (shape data) S ->
       all_missing_in S missing_val d0 ->
       (exists k j i, in_bounds data k j i /\ S k j i = true /\ fill.?[k, j, i] = true) ->
       r = Raise ConvergenceError).
Proof.
  intros _ _.
  set (d0 := set_where data discard (fun _ _ _ => missing_val)).
  destruct (@fill_loop_result fill missing_val use_3d
              (num_missing_required d0 fill missing_val) d0 (le_n _))
    as (n & dn & r & Hfuel & Hrun & Hprog & Hend).
  exists d0, n, dn, r. split; [reflexivity|]. split.
  { intros k j i Hb. unfold d0, set_where. now rewrite get_tab_shape. }
  split; [exact Hfuel|]. split; [exact Hrun|]. split; [exact Hprog|]. split; [exact Hend|].
  intros S Hc Hm (k & j & i & Hb & HS & Hf).
  destruct Hend as [[H0 ->] | (_ & -> & _)]; [exfalso|reflexivity].
  assert (Hne : nonempty data) by (eapply in_bounds_nonempty; exact Hb).
  assert (Hs0 : shape d0 = shape data) by (unfold d0, set_where; now apply shape_tab_shape).
  assert (Hne0 : nonempty d0) by (eapply nonempty_shape; [symmetry; exact Hs0|exact Hne]).
  rewrite <- Hs0 in Hc.
  destruct (region_for_range n Hne0 Hc Hm Hrun) as [Hsn Hmn].
  assert (Hbn : in_bounds dn k j i)
    by (eapply in_bounds_shape; [|exact Hb]; congruence).
  specialize (Hmn k j i Hbn HS).
  unfold num_missing_required, missing_and_required in H0.
  unfold in_bounds in Hbn. destruct (shape dn) as [[nz ny] nx]. destruct Hbn as (Hk & Hj & Hi).
  pose proof (count_nonzero_zero _ H0 Hk Hj Hi) as Hz. cbv beta in Hz.
  rewrite Hmn, Hf in Hz. discriminate.
Qed.

Lemma discard_and_fill_fixed_point_witness :
  shape (mask_const (1, 3, 4) false) = shape field_3x4 /\
  shape (mask_const (1, 3, 4) true) = shape field_3x4 /\
  exists (d0 : field) (n : nat) (dn : field) (r : result field),
    d0 = set_where field_3x4 (mask_const (1, 3, 4) false) (fun _ _ _ => (-9999)%Q) /\
    (forall k j i, in_bounds field_3x4 k j i ->
       d0.[k, j, i] = if (mask_const (1, 3, 4) false).?[k, j, i] then (-9999)%Q
                      else field_3x4.[k, j, i]) /\
    (forall fuel, num_missing_required d0 (mask_const (1, 3, 4) true) (-9999) <= fuel ->
       discard_and_fill fuel field_3x4 (mask_const (1, 3, 4) false)
         (mask_const (1, 3, 4) true) (-9999) true = Some r) /\
    for_range n (mask_filler_iteration (-9999) true) d0 = Ok dn /\
    (forall m, m < n -> exists dm dm',
       for_range m (mask_filler_iteration (-9999) true) d0 = Ok dm /\
       mask_filler_iteration (-9999) true dm = Ok dm' /\
       num_missing_required dm' (mask_const (1, 3, 4) true) (-9999)
       < num_missing_required dm (mask_const (1, 3, 4) true) (-9999)) /\
    (num_missing_required dn (mask_const (1, 3, 4) true) (-9999) = 0 /\ r = Ok dn \/
     0 < num_missing_required dn (mask_const (1, 3, 4) true) (-9999) /\
     r = Raise ConvergenceError /\
     exists dn', mask_filler_iteration (-9999) true dn = Ok dn' /\
       num_missing_required dn' (mask_const (1, 3, 4) true) (-9999)
       = num_missing_required dn (mask_const (1, 3, 4) true) (-9999)) /\
    (forall S : nat -> nat -> nat -> bool,
       closed_region true (shape field_3x4) S ->
       all_missing_in S (-9999) d0 ->
       (exists k j i, in_bounds field_3x4 k j i /\ S k j i = true /\
          (mask_const (1, 3, 4) true).?[k, j, i] = true) ->
       r = Raise ConvergenceError).
Proof.
  assert (H1 : shape (mask_const (1, 3, 4) false) = shape field_3x4) by reflexivity.
  assert (H2 : shape (mask_const (1, 3, 4) true) = shape field_3x4) by reflexivity.
  split; [exact H1|]. split; [exact H2|].
  exact (@discard_and_fill_fixed_point field_3x4 (mask_const (1, 3, 4) false)
           (mask_const (1, 3, 4) true) (-9999) true H1 H2).
Defined.

(** The sample field is filled in one iteration. *)
Example discard_and_fill_3x4 :
  discard_and_fill 1 field_3x4 (mask_const (1, 3, 4) false) (mask_const (1, 3, 4) true)
    (-9999) true
  = Some (Ok [[ [5; 5; 5; 5]; [5; 20 # 4; 5; 5]; [5; 5; 5; 5] ]]%Q).
Proof. vm_compute. reflexivity. Qed.

(** Once every cell is discarded nothing can be filled. *)
Example discard_and_fill_all_discarded (fuel : nat) :
  discard_and_fill (S fuel) field_3x4 (mask_const (1, 3, 4) true) (mask_const (1, 3, 4) true)
    (-9999) true
  = Some (Raise ConvergenceError).
Proof. reflexivity. Qed.

(** In 2D mode the upper level of [field_2x2x2] is cut off from the valid
    data of the lower level; in 3D mode it is reached through the vertical
    neighbours. *)
Example discard_and_fill_unreachable_level (fuel : nat) :
  discard_and_fill (S fuel) field_2x2x2 (mask_const (2, 2, 2) false)
    (mask_const (2, 2, 2) true) (-9999) false
  = Some (Raise ConvergenceError)
  /\ closed_region false (shape field_2x2x2) upper_level
  /\ discard_and_fill 4 field_2x2x2 (mask_const (2, 2, 2) false)
       (mask_const (2, 2, 2) true) (-9999) true
     = Some (Ok [ [ [1; 2]; [3; 4] ]; [ [1; 2]; [3; 4] ] ]%Q).
Proof.
  split; [reflexivity|]. split; [|vm_compute; reflexivity].
  intros k j i (Hk & Hj & Hi) HS. unfold upper_level in *. cbn.
  repeat constructor; assumption.
Qed.

(** ** Bracketing along an axis *)

Lemma nonzero_from_first (a : list bool) : forall start,
  match nonzero_from start a with
  | [] => forall m, nth m a false = false
  | i :: _ => start <= i /\ i - start < length a /\ nth (i - start) a false = true
              /\ forall m, m < i - start -> nth m a false = false
  end.
Proof.
  induction a as [|b a IH]; intros start; cbn [nonzero_from].
  - intros [|m]; reflexivity.
  - destruct b.
    + rewrite Nat.sub_diag. cbn. repeat split; try lia.
    + specialize (IH (S start)). destruct (nonzero_from (S start) a) as [|i l].
      * intros [|m]; [reflexivity|apply IH].
      * destruct IH as (H1 & H2 & H3 & H4).
        replace (i - start) with (S (i - S start)) by lia. cbn [length nth].
        repeat split; try lia; [assumption|].
        intros [|m] Hm; [reflexivity|]. apply H4. lia.
Qed.

Lemma Qgtb_true (x y : Q) : Qgtb x y = true <-> (y < x)%Q.
Proof.
  unfold Qgtb. rewrite negb_true_iff. split; intros H.
  - apply Qnot_le_lt. intros Hle. apply Qle_bool_iff in Hle. congruence.
  - destruct (Qle_bool x y) eqn:E; [|reflexivity].
    apply Qle_bool_iff in E. apply Qlt_not_le in H. contradiction.
Qed.

Lemma Qgtb_false (x y : Q) : Qgtb x y = false <-> (x <= y)%Q.
Proof.
  unfold Qgtb. rewrite negb_false_iff. apply Qle_bool_iff.
Qed.

Lemma Qltb_true (x y : Q) : Qltb x y = true <-> (x < y)%Q.
Proof. apply (Qgtb_true y x). Qed.

Lemma nth_map_gt (data : list Q) (val0 : Q) (m : nat) :
  m < length data ->
  nth m (map (fun x => Qgtb x val0) data) false = Qgtb (item data m) val0.
Proof.
  intros Hm. unfold item.
  rewrite (nth_indep _ false (Qgtb 0 val0)) by (now rewrite length_map).
  apply (map_nth (fun x => Qgtb x val0)).
Qed.

(** What [np.nonzero(data > val0)[0][0]] evaluates to. *)
Lemma first_greater (data : list Q) (val0 : Q) :
  match first (nonzero (map (fun x => Qgtb x val0) data)) with
  | Ok i2 => i2 < length data /\ (val0 < item data i2)%Q
             /\ forall m, m < i2 -> (item data m <= val0)%Q
  | Raise e => e = IndexError /\ forall m, m < length data -> (item data m <= val0)%Q
  end.
Proof.
  unfold nonzero.
  pose proof (nonzero_from_first (map (fun x => Qgtb x val0) data) 0) as H.
  destruct (nonzero_from 0 (map (fun x => Qgtb x val0) data)) as [|i l]; cbn [first].
  - split; [reflexivity|]. intros m Hm. specialize (H m).
    rewrite nth_map_gt in H by assumption. now apply Qgtb_false.
  - rewrite Nat.sub_0_r, length_map in H. destruct H as (_ & Hi & Ht & Hf).
    rewrite nth_map_gt in Ht by assumption. split; [assumption|].
    split; [now apply Qgtb_true|].
    intros m Hm. specialize (Hf m Hm). rewrite nth_map_gt in Hf by lia.
    now apply Qgtb_false.
Qed.

(** C3: for an axis [data] and a value [val0] strictly between its first and
    its last entry, [interp_slice_helper] returns the first index [i2] whose
    entry exceeds [val0], the index [i1 = i2 - 1] before it, and weights with
    [c1 + c2 = 1] and [c1 * data[i1] + c2 * data[i2] = val0].  (Nothing more
    is needed of the axis; for an increasing axis [i1] and [i2] bracket
    [val0].) *)
Theorem interp_slice_helper_interior (data : list Q) (val0 : Q) (lon : bool) :
  (item data 0 < val0)%Q -> (val0 < last_item data)%Q ->
  exists (i1 i2 : nat) (c1 c2 : Q),
    interp_slice_helper data val0 lon = Ok (i1, i2, c1, c2) /\
    i2 < length data /\
    (val0 < item data i2)%Q /\
    (forall m, m < i2 -> (item data m <= val0)%Q) /\
    0 < i2 /\ i1 = i2 - 1 /\
    (c1 + c2 == 1)%Q /\
    (c1 * item data i1 + c2 * item data i2 == val0)%Q.
Proof.
  intros Hlo Hhi. unfold interp_slice_helper.
  pose proof (first_greater data val0) as H.
  destruct (first (nonzero (map (fun x => Qgtb x val0) data))) as [i2|e].
  - destruct H as (Hi & Hgt & Hle). cbn [bind].
    assert (Hpos : 0 < i2).
    { destruct i2 as [|i2]; [|lia]. exfalso. apply (Qlt_irrefl val0).
      now apply Qlt_trans with (item data 0). }
    replace (0 <? i2) with true by (symmetry; now apply Nat.ltb_lt).
    do 4 eexists. split; [reflexivity|]. repeat split; try assumption.
    + ring.
    + assert (Hprev : (item data (i2 - 1) <= val0)%Q) by (apply Hle; lia).
      field. intros Hz. apply (Qlt_irrefl val0).
      apply Qlt_le_trans with (item data i2); [assumption|].
      apply Qle_trans with (item data (i2 - 1)); [|assumption].
      apply Qle_lteq. right. lra.
  - destruct H as (_ & Hall). exfalso.
    assert (Hlen : 0 < length data).
    { destruct data; [|cbn; lia]. unfold item, last_item in *. cbn in *. lra. }
    specialize (Hall (length data - 1)). unfold last_item, item in *.
    assert (length data - 1 < length data) by lia. specialize (Hall H). lra.
Qed.

Lemma interp_slice_helper_interior_witness :
  (item [0; 10; 20; 40] 0 < 25)%Q /\ (25 < last_item [0; 10; 20; 40])%Q /\
  exists (i1 i2 : nat) (c1 c2 : Q),
    interp_slice_helper [0; 10; 20; 40]%Q 25 false = Ok (i1, i2, c1, c2) /\
    i2 < length [0; 10; 20; 40]%Q /\
    (25 < item [0; 10; 20; 40] i2)%Q /\
    (forall m, m < i2 -> (item [0; 10; 20; 40] m <= 25)%Q) /\
    0 < i2 /\ i1 = i2 - 1 /\
    (c1 + c2 == 1)%Q /\
    (c1 * item [0; 10; 20; 40] i1 + c2 * item [0; 10; 20; 40] i2 == 25)%Q.
Proof.
  assert (Hlo : (item [0; 10; 20; 40] 0 < 25)%Q) by reflexivity.
  assert (Hhi : (25 < last_item [0; 10; 20; 40])%Q) by reflexivity.
  split; [exact Hlo|]. split; [exact Hhi|].
  exact (@interp_slice_helper_interior [0; 10; 20; 40]%Q 25 false Hlo Hhi).
Defined.

Example slice_helper_example_25 :
  exists c1 c2 : Q,
    interp_slice_helper [0; 10; 20; 40]%Q 25 false = Ok (2, 3, c1, c2)
    /\ (c1 == 3 # 4)%Q /\ (c2 == 1 # 4)%Q.
Proof.
  do 2 eexists. split; [vm_compute; reflexivity|]. split; reflexivity.
Qed.

(** ** The periodic gap of a longitude axis *)

(** With [lon=True], a value in the gap below the first sample, above the
    last sample shifted by -360, is bracketed by the last and the first
    sample. *)
Lemma interp_slice_helper_wrap (data : list Q) (val0 : Q) :
  0 < length data ->
  (last_item data - 360 < val0)%Q -> (val0 < item data 0)%Q ->
  exists c1 c2 : Q,
    interp_slice_helper data val0 true = Ok (length data - 1, 0, c1, c2) /\
    (c1 + c2 == 1)%Q /\
    (c1 * (item data (length data - 1) - 360) + c2 * item data 0 == val0)%Q /\
    (0 < c1)%Q /\ (0 < c2)%Q.
Proof.
  intros Hlen Hlo Hhi. unfold interp_slice_helper.
  pose proof (first_greater data val0) as H.
  destruct (first (nonzero (map (fun x => Qgtb x val0) data))) as [i2|e].
  - destruct H as (Hi & Hgt & Hle). cbn [bind].
    assert (i2 = 0).
    { destruct i2 as [|i2]; [reflexivity|]. exfalso.
      assert (item data 0 <= val0)%Q by (apply Hle; lia). lra. }
    subst i2. cbn [Nat.ltb Nat.leb Nat.eqb andb].
    replace (Qltb (last_item data - 360) val0) with true
      by (symmetry; now apply Qltb_true).
    do 2 eexists. split; [reflexivity|].
    unfold last_item, item in *.
    set (a := nth 0 data 0%Q) in *. set (b := nth (length data - 1) data 0%Q) in *.
    assert (Hd : (0 < a - (b - 360))%Q) by lra.
    repeat split.
    + ring.
    + field. lra.
    + setoid_replace (1 - (val0 - (b - 360)) / (a - (b - 360)))%Q
        with ((a - val0) / (a - (b - 360)))%Q by (field; lra).
      apply Qlt_shift_div_l; lra.
    + apply Qlt_shift_div_l; lra.
  - destruct H as (_ & Hall). exfalso. specialize (Hall 0 Hlen). lra.
Qed.

(** C4, as the code has it: on the axis -179, ..., 179 with [lon=True], a
    value in the periodic gap taken below the first sample (between -181 and
    -179; -180.5 is the meridian 179.5) gives [i1] the last index, [i2 = 0]
    and positive weights with [c1 + c2 = 1] that blend [data[i1] - 360] with
    [data[i2]]: [c1 * (data[i1] - 360) + c2 * data[i2] = val0]. *)
Theorem interp_slice_helper_longitude_gap (val0 : Q) :
  (-181 < val0)%Q -> (val0 < -179)%Q ->
  exists c1 c2 : Q,
    interp_slice_helper lon_axis val0 true = Ok (358, 0, c1, c2) /\
    (c1 + c2 == 1)%Q /\
    (c1 * (item lon_axis 358 - 360) + c2 * item lon_axis 0 == val0)%Q /\
    (0 < c1)%Q /\ (0 < c2)%Q.
Proof.
  intros Hlo Hhi.
  assert (Hlast : last_item lon_axis = 179%Q) by reflexivity.
  assert (Hfirst : item lon_axis 0 = (-179)%Q) by reflexivity.
  destruct (@interp_slice_helper_wrap lon_axis val0) as (c1 & c2 & E & H1 & H2 & H3 & H4).
  - cbn. lia.
  - rewrite Hlast. lra.
  - rewrite Hfirst. exact Hhi.
  - exists c1, c2. repeat split; assumption.
Qed.

Lemma interp_slice_helper_longitude_gap_witness :
  (-181 < - (361 # 2))%Q /\ (- (361 # 2) < -179)%Q /\
  exists c1 c2 : Q,
    interp_slice_helper lon_axis (- (361 # 2)) true = Ok (358, 0, c1, c2) /\
    (c1 + c2 == 1)%Q /\
    (c1 * (item lon_axis 358 - 360) + c2 * item lon_axis 0 == - (361 # 2))%Q /\
    (0 < c1)%Q /\ (0 < c2)%Q.
Proof.
  assert (Hlo : (-181 < - (361 # 2))%Q) by reflexivity.
  assert (Hhi : (- (361 # 2) < -179)%Q) by reflexivity.
  split; [exact Hlo|]. split; [exact Hhi|].
  exact (@interp_slice_helper_longitude_gap (- (361 # 2))%Q Hlo Hhi).
Defined.

(** C4, as stated, fails: at 179.5 itself no entry of the axis exceeds the
    value, and indexing the empty result of [np.nonzero] raises an
    IndexError, so no indices and weights are returned. *)
Lemma interp_slice_helper_179_5_fails :
  interp_slice_helper lon_axis (359 # 2) true = Raise IndexError /\
  ~ exists c1 c2 : Q, interp_slice_helper lon_axis (359 # 2) true = Ok (358, 0, c1, c2).
Proof.
  assert (E : interp_slice_helper lon_axis (359 # 2) true = Raise IndexError)
    by (vm_compute; reflexivity).
  split; [exact E|]. intros (c1 & c2 & H). rewrite E in H. discriminate.
Qed.

(** At -180.5 the weights are 3/4 for the last sample and 1/4 for the first. *)
Example slice_helper_example_gap :
  exists c1 c2 : Q,
    interp_slice_helper lon_axis (- (361 # 2)) true = Ok (358, 0, c1, c2)
    /\ (c1 == 3 # 4)%Q /\ (c2 == 1 # 4)%Q.
Proof.
  do 2 eexists. split; [vm_compute; reflexivity|]. split; reflexivity.
Qed.

(** ** Values outside the axis *)

(** Below the first sample, outside the wrap-around case, the out-of-bounds
    exit is taken. *)
Lemma interp_slice_helper_below (data : list Q) (val0 : Q) (lon : bool) :
  (val0 < item data 0)%Q -> 0 < length data ->
  lon = false \/ (val0 <= last_item data - 360)%Q ->
  interp_slice_helper data val0 lon = Raise (OutOfBoundsError val0).
Proof.
  intros Hlt Hlen Hno. unfold interp_slice_helper.
  pose proof (first_greater data val0) as H.
  destruct (first (nonzero (map (fun x => Qgtb x val0) data))) as [i2|e].
  - destruct H as (Hi & Hgt & Hle). cbn [bind].
    assert (i2 = 0).
    { destruct i2 as [|i2]; [reflexivity|]. exfalso.
      assert (item data 0 <= val0)%Q by (apply Hle; lia). lra. }
    subst i2. cbn [Nat.ltb Nat.leb Nat.eqb].
    destruct Hno as [-> | Hge]; [reflexivity|].
    replace (Qltb (last_item data - 360) val0) with false; [now rewrite andb_false_r|].
    symmetry. unfold Qltb. apply negb_false_iff. now apply Qle_bool_iff.
  - destruct H as (_ & Hall). exfalso. specialize (Hall 0 Hlen). lra.
Qed.

(** At or above the last sample (every entry is at most [val0]) the search
    for the first greater entry fails before any bound is checked. *)
Lemma interp_slice_helper_no_greater (data : list Q) (val0 : Q) (lon : bool) :
  (forall m, m < length data -> (item data m <= val0)%Q) ->
  interp_slice_helper data val0 lon = Raise IndexError.
Proof.
  intros Hall. unfold interp_slice_helper.
  pose proof (first_greater data val0) as H.
  destruct (first (nonzero (map (fun x => Qgtb x val0) data))) as [i2|e].
  - destruct H as (Hi & Hgt & _). specialize (Hall i2 Hi). lra.
  - destruct H as [-> _]. reflexivity.
Qed.

(** C8, at a value above the axis: the call fails with the interpreter's
    IndexError, not with the out-of-bounds exit. *)
Example interp_slice_helper_above_range :
  interp_slice_helper [0; 1; 2]%Q 3 false = Raise IndexError /\
  interp_slice_helper [0; 1; 2]%Q 3 false <> Raise (OutOfBoundsError 3).
Proof. split; [reflexivity|discriminate]. Qed.

(** ** Masked arrays *)

(** A missing value other than the default one, together with [masked=True],
    is refused. *)
Lemma extend_into_mask_conflicting_config
    (data : MaskedArray) (missing_val : Q) (use_3d : bool) (num_iters : nat) :
  Qeq_bool missing_val (-9999) = false ->
  extend_into_mask true data missing_val use_3d num_iters = Raise ConflictingConfigError.
Proof. intros H. unfold extend_into_mask. now rewrite H. Qed.

(** On entry the masked cells receive the missing value. *)
Lemma unmask_cells (data : MaskedArray) (missing_val : Q) k j i :
  in_bounds (ma_data data) k j i ->
  (unmask true data missing_val).[k, j, i] =
  if (ma_mask data).?[k, j, i] then missing_val else (ma_data data).[k, j, i].
Proof. intros Hb. cbn [unmask]. unfold set_where. now rewrite get_tab_shape. Qed.

(** The name [ma] is not bound in the module. *)
Lemma ma_unbound : lookup_global "ma" = Raise (NameError "ma").
Proof. reflexivity. Qed.

(** With [masked=True] and the default missing value, the loop runs to its
    end and the exit conversion fails on the unbound name. *)
Lemma extend_into_mask_masked_raises (data : MaskedArray) (use_3d : bool) (num_iters : nat) :
  nonempty (ma_data data) ->
  extend_into_mask true data (-9999) use_3d num_iters = Raise (NameError "ma").
Proof.
  intros Hne. unfold extend_into_mask.
  change (negb (Qeq_bool (-9999) (-9999)) && true) with false. cbv iota.
  assert (Hne' : nonempty (unmask true data (-9999))).
  { eapply nonempty_shape; [|exact Hne]. symmetry. cbn [unmask]. unfold set_where.
    now apply shape_tab_shape. }
  destruct (for_range_frame (-9999) use_3d num_iters Hne') as (out & E & _).
  rewrite E. reflexivity.
Qed.

(** C7, on the sample field given as a MaskedArray: the call does not return
    a MaskedArray, it fails with a NameError. *)
Example extend_into_mask_masked_array_fails :
  extend_into_mask true masked_3x4 (-9999) false 1 = Raise (NameError "ma").
Proof. vm_compute. reflexivity. Qed.

(** ** interp_bdry *)

(** Without depth dependence no interpolant is ever built. *)
Lemma interp_bdry_not_depth_dependent
    (interp2d : ndarray -> ndarray -> masked_ndarray -> ndarray -> ndarray -> ndarray)
    (source_h source_z : ndarray) (source_data : masked_ndarray)
    (target_h target_z target_hfac : ndarray) :
  nd_shape source_h = mnd_shape source_data ->
  interp_bdry interp2d source_h source_z source_data target_h target_z target_hfac false
  = Raise (UnboundLocalError "interpolant").
Proof.
  intros Hs. unfold interp_bdry, boolean_index, shape_eqb. rewrite Hs.
  destruct (list_eq_dec Nat.eq_dec (mnd_shape source_data) (mnd_shape source_data));
    [reflexivity|congruence].
Qed.

(** With depth dependence the meshed depth axis is a regular array, whose
    [mask] attribute does not exist. *)
Lemma interp_bdry_depth_dependent
    (interp2d : ndarray -> ndarray -> masked_ndarray -> ndarray -> ndarray -> ndarray)
    (source_h source_z : ndarray) (source_data : masked_ndarray)
    (target_h target_z target_hfac : ndarray) :
  mnd_shape source_data = [length (nd_cells source_z); length (nd_cells source_h)] ->
  interp_bdry interp2d source_h source_z source_data target_h target_z target_hfac true
  = Raise (AttributeError "mask").
Proof.
  intros Hs. unfold interp_bdry, meshgrid, boolean_index, shape_eqb. cbn [nd_shape].
  rewrite Hs.
  destruct (list_eq_dec Nat.eq_dec _ _); [reflexivity|congruence].
Qed.

(** C9, on a slice without depth: whatever scipy's [interp2d] is, the call
    fails before anything is interpolated, and the same slice with depth
    fails too. *)
Example interp_bdry_fails
    (interp2d : ndarray -> ndarray -> masked_ndarray -> ndarray -> ndarray -> ndarray) :
  interp_bdry interp2d bdry_source_h bdry_source_z bdry_source_data
    bdry_target_h bdry_target_z bdry_target_hfac false
  = Raise (UnboundLocalError "interpolant")
  /\
  interp_bdry interp2d bdry_source_h bdry_source_z bdry_source_data_2d
    bdry_target_h bdry_target_z bdry_target_hfac_2d true
  = Raise (AttributeError "mask").
Proof. split; reflexivity. Qed.

(** ** The regular-grid interpolant *)

Lemma interpolant_2d_outside (lat lon : list Q) values (fill_value y x : Q) :
  out_of_bounds lat y = true \/ out_of_bounds lon x = true ->
  interpolant_2d lat lon values fill_value y x = fill_value.
Proof.
  intros H. unfold interpolant_2d.
  replace (out_of_bounds lat y || out_of_bounds lon x) with true; [reflexivity|].
  symmetry. apply orb_true_iff. exact H.
Qed.

Lemma interpolant_3d_outside (depth lat lon : list Q) values (fill_value z y x : Q) :
  out_of_bounds depth z = true \/ out_of_bounds lat y = true \/ out_of_bounds lon x = true ->
  interpolant_3d depth lat lon values fill_value z y x = fill_value.
Proof.
  intros H. unfold interpolant_3d.
  replace (out_of_bounds depth z || out_of_bounds lat y || out_of_bounds lon x) with true;
    [reflexivity|].
  symmetry. rewrite !orb_true_iff. tauto.
Qed.

Lemma out_of_bounds_true (axis : list Q) (x : Q) :
  out_of_bounds axis x = true <-> (x < item axis 0 \/ last_item axis < x)%Q.
Proof.
  unfold out_of_bounds. rewrite orb_true_iff, Qltb_true, Qgtb_true. reflexivity.
Qed.

Lemma out_of_bounds_false (axis : list Q) (x : Q) :
  out_of_bounds axis x = false <-> (item axis 0 <= x /\ x <= last_item axis)%Q.
Proof.
  unfold out_of_bounds. rewrite orb_false_iff. unfold Qltb. rewrite negb_false_iff.
  rewrite Qgtb_false, Qle_bool_iff. reflexivity.
Qed.

Lemma searchsorted_spec (axis : list Q) (x : Q) :
  searchsorted axis x <= length axis /\
  (forall m, m < searchsorted axis x -> (item axis m < x)%Q) /\
  (searchsorted axis x < length axis -> (x <= item axis (searchsorted axis x))%Q).
Proof.
  induction axis as [|a axis IH]; cbn [searchsorted length].
  - repeat split; intros; lia.
  - destruct (Qltb a x) eqn:E.
    + destruct IH as (H1 & H2 & H3). repeat split; [lia| |].
      * intros [|m] Hm; [now apply Qltb_true|]. apply (H2 m). lia.
      * intros Hlt. apply (H3 ltac:(lia)).
    + repeat split; [lia|intros; lia|]. intros _. unfold item. cbn [nth].
      unfold Qltb in E. apply negb_false_iff in E. now apply Qle_bool_iff.
Qed.

(** On an increasing axis, a coordinate within the bounds lies in the
    interval chosen for it. *)
Lemma interval_brackets (axis : list Q) (x : Q) :
  increasing axis -> 2 <= length axis -> out_of_bounds axis x = false ->
  interval axis x + 1 < length axis /\
  (item axis (interval axis x) <= x)%Q /\
  (x <= item axis (interval axis x + 1))%Q.
Proof.
  intros Hinc Hlen Hb. apply out_of_bounds_false in Hb as [Hlo Hhi].
  destruct (searchsorted_spec axis x) as (Hc & Hbelow & Habove).
  unfold interval. set (c := searchsorted axis x) in *.
  destruct (Nat.eq_dec c (length axis)) as [Hfull | Hnot].
  { exfalso. assert (item axis (length axis - 1) < x)%Q by (apply Hbelow; lia).
    unfold last_item, item in *. lra. }
  destruct c as [|c].
  - replace (Nat.min (0 - 1) (length axis - 2)) with 0 by lia. cbn [Nat.add].
    split; [lia|]. split; [assumption|].
    assert (x <= item axis 0)%Q by (apply Habove; lia).
    assert (item axis 0 < item axis 1)%Q by (apply Hinc; lia). lra.
  - replace (Nat.min (S c - 1) (length axis - 2)) with c by lia.
    replace (c + 1) with (S c) by lia.
    split; [lia|]. split.
    + apply Qlt_le_weak. apply Hbelow. lia.
    + apply Habove. lia.
Qed.

(** Hence the blend along one axis is a mean of the values at the two ends
    of that interval with weights between 0 and 1: nothing is extrapolated. *)
Lemma linear_is_convex (axis : list Q) (x : Q) (v : nat -> Q) :
  increasing axis -> 2 <= length axis -> out_of_bounds axis x = false ->
  exists t : Q,
    (0 <= t)%Q /\ (t <= 1)%Q /\
    (linear axis x v == (1 - t) * v (interval axis x) + t * v (interval axis x + 1)%nat)%Q /\
    ((1 - t) * item axis (interval axis x) + t * item axis (interval axis x + 1)%nat == x)%Q.
Proof.
  intros Hinc Hlen Hb. destruct (interval_brackets x Hinc Hlen Hb) as (Hi & Hlo & Hhi).
  assert (Hd : (item axis (interval axis x) < item axis (interval axis x + 1))%Q)
    by (apply Hinc; lia).
  unfold linear. set (i := interval axis x) in *.
  exists ((x - item axis i) / (item axis (i + 1)%nat - item axis i))%Q.
  split; [apply Qle_shift_div_l; lra|].
  split; [apply Qle_shift_div_r; lra|].
  split; [reflexivity|]. field. lra.
Qed.

(** At a node of the axis the blend returns the value of that node. *)
Lemma linear_at_node (axis : list Q) (v : nat -> Q) (m : nat) :
  increasing axis -> 2 <= length axis -> m < length axis ->
  (linear axis (item axis m) v == v m)%Q.
Proof.
  intros Hinc Hlen Hm.
  destruct (searchsorted_spec axis (item axis m)) as (Hc & Hbelow & Habove).
  assert (Hcm : searchsorted axis (item axis m) = m).
  { destruct (Nat.lt_trichotomy (searchsorted axis (item axis m)) m) as [Hlt | [Heq | Hgt]].
    - assert (item axis m <= item axis (searchsorted axis (item axis m)))%Q
        by (apply Habove; lia).
      assert (item axis (searchsorted axis (item axis m)) < item axis m)%Q
        by (apply Hinc; lia). lra.
    - exact Heq.
    - specialize (Hbelow m Hgt). lra. }
  unfold linear, interval. rewrite Hcm.
  destruct m as [|m].
  - replace (Nat.min (0 - 1) (length axis - 2)) with 0 by lia. cbn [Nat.add].
    assert (item axis 0 < item axis 1)%Q by (apply Hinc; lia). field. lra.
  - replace (Nat.min (S m - 1) (length axis - 2)) with m by lia.
    replace (m + 1) with (S m) by lia.
    assert (item axis m < item axis (S m))%Q by (apply Hinc; lia). field. lra.
Qed.

Lemma nth_map_in {A B} (f : A -> B) (l : list A) (d : A) (d' : B) (n : nat) :
  n < length l -> nth n (map f l) d' = f (nth n l d).
Proof.
  intros Hn. rewrite (nth_indep _ d' (f d)) by (now rewrite length_map). apply map_nth.
Qed.

(** A strictly ascending axis increases. *)
Lemma strictly_ascending_increasing (axis : list Q) :
  strictly_ascending axis = true -> increasing axis.
Proof.
  induction axis as [|a rest IH]; intros Hasc; [intros x y _ Hy; cbn in Hy; lia|].
  cbn [strictly_ascending] in Hasc. destruct rest as [|b rest'].
  - intros x y Hxy Hy. cbn in Hy. lia.
  - apply andb_prop in Hasc as [Hab Hrest]. apply Qltb_true in Hab.
    specialize (IH Hrest).
    assert (Hhead : forall y, 0 < y -> y < length (a :: b :: rest') ->
                      (a < item (a :: b :: rest') y)%Q).
    { intros [|[|y]] Hy0 Hy; [lia|exact Hab|].
      apply Qlt_trans with b; [exact Hab|].
      apply (IH 0 (S y)); [lia|cbn [length] in *; lia]. }
    intros [|x] y Hxy Hy.
    + apply Hhead; assumption.
    + destruct y as [|y]; [lia|]. apply (IH x y); [lia|cbn [length] in *; lia].
Qed.

(** C5: on a source grid whose axes are strictly ascending and match the
    shape of the source data, [interp_reg] returns, at every point of the
    target grid, the value of the piecewise-linear interpolant of the source
    data at the coordinates of that point; where a coordinate of the point
    lies outside the bounds of the corresponding source axis, that value is
    exactly [fill_value]. *)
Theorem interp_reg_fill_value_outside
    (source_grid target_grid : Grid) (gt : gtype) (fill_value : Q) :
  strictly_ascending (lat_1d source_grid gt) = true ->
  strictly_ascending (lon_1d source_grid gt) = true ->
  (forall values : list (list Q),
     shape_matches_2d values (length (lat_1d source_grid gt))
       (length (lon_1d source_grid gt)) = true ->
     exists out : list (list Q),
       interp_reg source_grid target_grid (Data2D values) 2 gt fill_value = Ok (Data2D out) /\
       length out = length (lat_1d target_grid gt) /\
       forall j i, j < length (lat_1d target_grid gt) -> i < length (lon_1d target_grid gt) ->
         let lat := item (lat_1d target_grid gt) j in
         let lon := item (lon_1d target_grid gt) i in
         length (nth j out []) = length (lon_1d target_grid gt) /\
         nth i (nth j out []) 0%Q =
           interpolant_2d (lat_1d source_grid gt) (lon_1d source_grid gt) values fill_value
             lat lon /\
         (out_of_bounds (lat_1d source_grid gt) lat = true \/
          out_of_bounds (lon_1d source_grid gt) lon = true ->
          nth i (nth j out []) 0%Q = fill_value)) /\
  (forall values : field,
     strictly_ascending (map Qopp (grid_z source_grid)) = true ->
     shape_matches_3d values (length (map Qopp (grid_z source_grid)))
       (length (lat_1d source_grid gt)) (length (lon_1d source_grid gt)) = true ->
     exists out : field,
       interp_reg source_grid target_grid (Data3D values) 3 gt fill_value = Ok (Data3D out) /\
       length out = length (grid_z target_grid) /\
       forall k j i, k < length (grid_z target_grid) ->
         j < length (lat_1d target_grid gt) -> i < length (lon_1d target_grid gt) ->
         let depth := (- item (grid_z target_grid) k)%Q in
         let lat := item (lat_1d target_grid gt) j in
         let lon := item (lon_1d target_grid gt) i in
         out.[k, j, i] =
           interpolant_3d (map Qopp (grid_z source_grid)) (lat_1d source_grid gt)
             (lon_1d source_grid gt) values fill_value depth lat lon /\
         (out_of_bounds (map Qopp (grid_z source_grid)) depth = true \/
          out_of_bounds (lat_1d source_grid gt) lat = true \/
          out_of_bounds (lon_1d source_grid gt) lon = true ->
          out.[k, j, i] = fill_value)).
Proof.
  intros Hlat Hlon. split.
  - intros values Hshape.
    eexists. split.
    { unfold interp_reg, RegularGridInterpolator_2d. cbn [get_lon_lat Nat.eqb].
      rewrite Hlat, Hlon, Hshape. reflexivity. }
    split; [apply length_map|].
    intros j i Hj Hi lat lon.
    assert (E : nth i (nth j (map (fun lat0 => map (fun lon0 =>
                  interpolant_2d (lat_1d source_grid gt) (lon_1d source_grid gt) values
                    fill_value lat0 lon0) (lon_1d target_grid gt)) (lat_1d target_grid gt)) [])
                0%Q
              = interpolant_2d (lat_1d source_grid gt) (lon_1d source_grid gt) values
                  fill_value lat lon).
    { rewrite (nth_map_in _ _ 0%Q) by assumption. rewrite (nth_map_in _ _ 0%Q) by assumption.
      reflexivity. }
    split; [|split].
    + rewrite (nth_map_in _ _ 0%Q) by assumption. apply length_map.
    + exact E.
    + intros Hout. rewrite E. now apply interpolant_2d_outside.
  - intros values Hz Hshape.
    eexists. split.
    { unfold interp_reg, RegularGridInterpolator_3d. cbn [get_lon_lat Nat.eqb].
      rewrite Hz, Hlat, Hlon, Hshape. reflexivity. }
    split; [apply length_map|].
    intros k j i Hk Hj Hi depth lat lon. unfold get.
    assert (E : nth i (nth j (nth k (map (fun z => map (fun lat0 => map (fun lon0 =>
                  interpolant_3d (map Qopp (grid_z source_grid)) (lat_1d source_grid gt)
                    (lon_1d source_grid gt) values fill_value (- z) lat0 lon0)
                  (lon_1d target_grid gt)) (lat_1d target_grid gt)) (grid_z target_grid)) [])
                [])
                0%Q
              = interpolant_3d (map Qopp (grid_z source_grid)) (lat_1d source_grid gt)
                  (lon_1d source_grid gt) values fill_value depth lat lon).
    { rewrite (nth_map_in _ _ 0%Q) by assumption. rewrite (nth_map_in _ _ 0%Q) by assumption.
      rewrite (nth_map_in _ _ 0%Q) by assumption. reflexivity. }
    split.
    + exact E.
    + intros Hout. rewrite E. now apply interpolant_3d_outside.
Qed.

Lemma interp_reg_fill_value_outside_witness :
  strictly_ascending (lat_1d source_grid_2x3 gtype_t) = true /\
  strictly_ascending (lon_1d source_grid_2x3 gtype_t) = true /\
  exists out : list (list Q),
    interp_reg source_grid_2x3 target_grid_3x4 (Data2D source_values_2x3) 2 gtype_t (-9999)
    = Ok (Data2D out) /\
    nth 3 (nth 0 out []) 0%Q = (-9999)%Q.
Proof.
  assert (Hlat : strictly_ascending (lat_1d source_grid_2x3 gtype_t) = true) by reflexivity.
  assert (Hlon : strictly_ascending (lon_1d source_grid_2x3 gtype_t) = true) by reflexivity.
  split; [exact Hlat|]. split; [exact Hlon|].
  destruct (proj1 (@interp_reg_fill_value_outside source_grid_2x3 target_grid_3x4 gtype_t
                     (-9999)%Q Hlat Hlon) source_values_2x3 eq_refl) as (out & E & _ & H).
  exists out. split; [exact E|].
  apply (H 0 3); [cbn; lia | cbn; lia | right; reflexivity].
Defined.

(** The sample target grid reaches beyond the sample source grid to the
    north and to the east; there the result is the fill value, elsewhere it
    is interpolated. *)
Example interp_reg_example :
  exists out,
    interp_reg source_grid_2x3 target_grid_3x4 (Data2D source_values_2x3) 2 gtype_t (-9999)
    = Ok (Data2D out) /\
    Forall2 (Forall2 Qeq) out
      [ [1; 3 # 2; 3; -9999]; [5 # 2; 3; 9 # 2; -9999]; [-9999; -9999; -9999; -9999] ]%Q.
Proof.
  eexists. split; [vm_compute; reflexivity|].
  repeat constructor.
Qed.

(** Any other [dim] is a usage error. *)
Lemma interp_reg_usage_error
    (source_grid target_grid : Grid) (source_data : grid_data) (dim : nat) (gt : gtype)
    (fill_value : Q) :
  dim <> 2 -> dim <> 3 ->
  interp_reg source_grid target_grid source_data dim gt fill_value = Raise UsageError.
Proof.
  intros H2 H3. unfold interp_reg. cbn [get_lon_lat].
  apply Nat.eqb_neq in H2, H3. now rewrite H2, H3.
Qed.

(** * Further properties *)

(** ** Valid neighbours *)

Lemma valid_values_exists (d : field) (mv : Q) (ps : list pos) :
  valid_values d mv ps <> [] <->
  exists p, In p ps /\ Qeq_bool (at_pos d p) mv = false.
Proof.
  unfold valid_values. induction ps as [|q ps IH]; cbn [map filter].
  - split; [congruence|]. intros (p & [] & _).
  - destruct (Qeq_bool (at_pos d q) mv) eqn:E; cbn [negb].
    + rewrite IH. split.
      * intros (p & Hp & Hv). exists p. split; [now right|assumption].
      * intros (p & [-> | Hp] & Hv); [congruence|]. exists p. auto.
    + split; [|congruence]. intros _. exists q. split; [now left|assumption].
Qed.

Lemma hcount_nonzero (d : field) (mv : Q) k j i :
  Qeq_bool (hcount d mv k j i) 0 = false <->
  exists p, In p (horizontal_neighbours (shape d) k j i) /\ Qeq_bool (at_pos d p) mv = false.
Proof.
  rewrite <- valid_values_exists, <- hcount_zero.
  destruct (Qeq_bool (hcount d mv k j i) 0); split; congruence.
Qed.

(** The neighbour relation is symmetric, up to the cell standing in for
    itself on an edge. *)
Lemma horizontal_neighbours_sym nz ny nx k j i (p : pos) :
  k < nz -> j < ny -> i < nx ->
  In p (horizontal_neighbours (nz, ny, nx) k j i) ->
  let '(k', j', i') := p in
  In (k, j, i) (horizontal_neighbours (nz, ny, nx) k' j' i').
Proof.
  intros Hk Hj Hi Hp. unfold horizontal_neighbours in Hp.
  destruct Hp as [<- | [<- | [<- | [<- | []]]]]; unfold horizontal_neighbours.
  - destruct (i =? 0) eqn:E0.
    + apply Nat.eqb_eq in E0. subst i. left. reflexivity.
    + apply Nat.eqb_neq in E0. right. left.
      replace (i - 1 =? nx - 1) with false by (symmetry; apply Nat.eqb_neq; lia).
      repeat f_equal. lia.
  - destruct (i =? nx - 1) eqn:E1.
    + right. left. rewrite E1. reflexivity.
    + apply Nat.eqb_neq in E1. left.
      replace (i + 1 =? 0) with false by (symmetry; apply Nat.eqb_neq; lia).
      repeat f_equal. lia.
  - destruct (j =? 0) eqn:E0.
    + apply Nat.eqb_eq in E0. subst j. right. right. left. reflexivity.
    + apply Nat.eqb_neq in E0. right. right. right. left.
      replace (j - 1 =? ny - 1) with false by (symmetry; apply Nat.eqb_neq; lia).
      repeat f_equal. lia.
  - destruct (j =? ny - 1) eqn:E1.
    + right. right. right. left. rewrite E1. reflexivity.
    + apply Nat.eqb_neq in E1. right. right. left.
      replace (j + 1 =? 0) with false by (symmetry; apply Nat.eqb_neq; lia).
      repeat f_equal. lia.
Qed.

(** ** remove_isolated_cells *)

Lemma remove_isolated_cells_ok (d : field) (mv : Q) :
  nonempty d ->
  remove_isolated_cells d mv = Ok (tab (shape d) (isolated_removed d mv)).
Proof.
  unfold nonempty. destruct (shape d) as [[nz ny] nx] eqn:Hs. intros (Hz & Hy & Hx).
  unfold remove_isolated_cells, neighbours, set_where. rewrite Hs.
  replace ((nx =? 0) || (ny =? 0)) with false
    by (symmetry; apply orb_false_iff; split; apply Nat.eqb_neq; lia).
  cbn [bind]. f_equal. apply tab_ext; intros k j i Hk Hj Hi.
  unfold isolated_removed, hcount, cell_w, cell_e, cell_s, cell_n. rewrite Hs.
  rewrite !(@get_tab _ _ _ _ _ _ k j i) by assumption. reflexivity.
Qed.

Lemma isolated_removed_valid (d : field) (mv : Q) k j i :
  Qeq_bool (isolated_removed d mv k j i) mv = false ->
  isolated_removed d mv k j i = d.[k, j, i] /\
  Qeq_bool d.[k, j, i] mv = false /\ Qeq_bool (hcount d mv k j i) 0 = false.
Proof.
  unfold isolated_removed.
  destruct (Qeq_bool d.[k, j, i] mv) eqn:Ev; cbn [negb andb].
  - intros H. congruence.
  - destruct (Qeq_bool (hcount d mv k j i) 0) eqn:Eh.
    + rewrite Qeq_bool_refl. discriminate.
    + auto.
Qed.

(** On the rim of the domain a cell is one of its own neighbours. *)
Lemma edge_self_neighbour nz ny nx k j i :
  on_edge (nz, ny, nx) j i -> In (k, j, i) (horizontal_neighbours (nz, ny, nx) k j i).
Proof.
  unfold on_edge, horizontal_neighbours. intros [H | [H | [H | H]]]; subst.
  - left. reflexivity.
  - right. left. now rewrite Nat.eqb_refl.
  - right. right. left. reflexivity.
  - right. right. right. left. now rewrite Nat.eqb_refl.
Qed.

(** X1: [remove_isolated_cells] returns a field of the same shape in which a
    cell that differs from [mask_val] and whose four horizontal neighbours
    all equal [mask_val] has become [mask_val], and every other cell is
    unchanged. *)
Theorem remove_isolated_cells_spec (data : field) (mask_val : Q) (k j i : nat) :
  in_bounds data k j i ->
  exists out : field,
    remove_isolated_cells data mask_val = Ok out /\
    shape out = shape data /\
    (Qeq_bool data.[k, j, i] mask_val = false ->
     valid_values data mask_val (horizontal_neighbours (shape data) k j i) = [] ->
     out.[k, j, i] = mask_val) /\
    (Qeq_bool data.[k, j, i] mask_val = true \/
     valid_values data mask_val (horizontal_neighbours (shape data) k j i) <> [] ->
     out.[k, j, i] = data.[k, j, i]).
Proof.
  intros Hb. assert (Hne : nonempty data) by (eapply in_bounds_nonempty; exact Hb).
  exists (tab (shape data) (isolated_removed data mask_val)).
  split; [now apply remove_isolated_cells_ok|].
  split; [now apply shape_tab_shape|].
  rewrite get_tab_shape by assumption. unfold isolated_removed. split.
  - intros Hv Hn. apply hcount_zero in Hn. now rewrite Hv, Hn.
  - intros [Hm | Hn].
    + now rewrite Hm.
    + destruct (Qeq_bool (hcount data mask_val k j i) 0) eqn:E.
      * apply hcount_zero in E. contradiction.
      * now rewrite andb_false_r.
Qed.

Lemma remove_isolated_cells_spec_witness :
  in_bounds mask_3x3 0 1 1 /\
  exists out : field,
    remove_isolated_cells mask_3x3 0 = Ok out /\
    shape out = shape mask_3x3 /\
    (Qeq_bool mask_3x3.[0, 1, 1] 0 = false ->
     valid_values mask_3x3 0 (horizontal_neighbours (shape mask_3x3) 0 1 1) = [] ->
     out.[0, 1, 1] = 0%Q) /\
    (Qeq_bool mask_3x3.[0, 1, 1] 0 = true \/
     valid_values mask_3x3 0 (horizontal_neighbours (shape mask_3x3) 0 1 1) <> [] ->
     out.[0, 1, 1] = mask_3x3.[0, 1, 1]).
Proof.
  assert (Hb : in_bounds mask_3x3 0 1 1) by (unfold in_bounds; cbn; lia).
  split; [exact Hb|].
  exact (@remove_isolated_cells_spec mask_3x3 0 0 1 1 Hb).
Defined.

(** X2: a cell on the rim of the horizontal domain is never removed, whatever
    surrounds it: the copied boundary makes it its own neighbour. *)
Theorem remove_isolated_cells_keeps_edges (data : field) (mask_val : Q) (k j i : nat) :
  in_bounds data k j i -> on_edge (shape data) j i ->
  exists out : field,
    remove_isolated_cells data mask_val = Ok out /\ out.[k, j, i] = data.[k, j, i].
Proof.
  intros Hb He. assert (Hne : nonempty data) by (eapply in_bounds_nonempty; exact Hb).
  exists (tab (shape data) (isolated_removed data mask_val)).
  split; [now apply remove_isolated_cells_ok|].
  rewrite get_tab_shape by assumption. unfold isolated_removed.
  destruct (Qeq_bool data.[k, j, i] mask_val) eqn:Ev; [reflexivity|].
  replace (Qeq_bool (hcount data mask_val k j i) 0) with false; [reflexivity|].
  symmetry. apply hcount_nonzero. exists (k, j, i). split; [|exact Ev].
  destruct (shape data) as [[nz ny] nx]. now apply edge_self_neighbour.
Qed.

Lemma remove_isolated_cells_keeps_edges_witness :
  in_bounds mask_3x3 0 0 0 /\ on_edge (shape mask_3x3) 0 0 /\
  exists out : field,
    remove_isolated_cells mask_3x3 0 = Ok out /\ out.[0, 0, 0] = mask_3x3.[0, 0, 0].
Proof.
  assert (Hb : in_bounds mask_3x3 0 0 0) by (unfold in_bounds; cbn; lia).
  assert (He : on_edge (shape mask_3x3) 0 0) by (cbn; left; reflexivity).
  split; [exact Hb|]. split; [exact He|].
  exact (@remove_isolated_cells_keeps_edges mask_3x3 0 0 0 0 Hb He).
Defined.

(** On the sample mask the lone cell in the middle is removed, the lone cell
    in the corner stays. *)
Example remove_isolated_cells_3x3 :
  remove_isolated_cells mask_3x3 0 = Ok [[ [1; 0; 0]; [0; 0; 0]; [0; 0; 0] ]]%Q.
Proof. vm_compute. reflexivity. Qed.

(** X3: [remove_isolated_cells] is idempotent: removing the isolated cells
    leaves none, since a cell that stays has a neighbour that stays. *)
Theorem remove_isolated_cells_idempotent (data : field) (mask_val : Q) :
  nonempty data ->
  exists out : field,
    remove_isolated_cells data mask_val = Ok out /\
    remove_isolated_cells out mask_val = Ok out.
Proof.
  intros Hne. set (out := tab (shape data) (isolated_removed data mask_val)).
  assert (Hs : shape out = shape data) by (now apply shape_tab_shape).
  assert (Hne' : nonempty out) by (eapply nonempty_shape; [symmetry; exact Hs|exact Hne]).
  exists out. split; [now apply remove_isolated_cells_ok|].
  rewrite remove_isolated_cells_ok by assumption. f_equal. rewrite Hs. unfold out at 2.
  unfold nonempty in Hne. destruct (shape data) as [[nz ny] nx] eqn:Es.
  destruct Hne as (Hz & Hy & Hx).
  assert (Hget : forall k j i, k < nz -> j < ny -> i < nx ->
            out.[k, j, i] = isolated_removed data mask_val k j i).
  { intros k j i Hk Hj Hi. unfold out. now apply get_tab. }
  apply tab_ext. intros k j i Hk Hj Hi.
  unfold isolated_removed at 1. rewrite Hget by assumption.
  destruct (Qeq_bool (isolated_removed data mask_val k j i) mask_val) eqn:Ev;
    [reflexivity|].
  destruct (isolated_removed_valid _ _ _ _ _ Ev) as (_ & Hv & Hh).
  replace (Qeq_bool (hcount out mask_val k j i) 0) with false; [reflexivity|].
  symmetry. apply hcount_nonzero.
  apply hcount_nonzero in Hh. destruct Hh as ([[k' j'] i'] & Hin & Hpv).
  rewrite Es in Hin. rewrite Hs.
  exists (k', j', i'). split; [exact Hin|]. cbn [at_pos] in *.
  pose proof (horizontal_neighbours_in_bounds Hk Hj Hi) as Hbs.
  rewrite Forall_forall in Hbs. specialize (Hbs _ Hin). cbn beta iota in Hbs.
  destruct Hbs as (Hk' & Hj' & Hi').
  rewrite Hget by assumption. unfold isolated_removed. rewrite Hpv. cbn [negb andb].
  replace (Qeq_bool (hcount data mask_val k' j' i') 0) with false; [exact Hpv|].
  symmetry. apply hcount_nonzero. exists (k, j, i). rewrite Es. split; [|exact Hv].
  exact (@horizontal_neighbours_sym nz ny nx k j i (k', j', i') Hk Hj Hi Hin).
Qed.

Lemma remove_isolated_cells_idempotent_witness :
  nonempty mask_3x3 /\
  exists out : field,
    remove_isolated_cells mask_3x3 0 = Ok out /\ remove_isolated_cells out 0 = Ok out.
Proof.
  assert (Hne : nonempty mask_3x3) by (unfold nonempty; cbn; lia).
  split; [exact Hne|].
  exact (@remove_isolated_cells_idempotent mask_3x3 0 Hne).
Defined.

(** ** neighbours and neighbours_z, cell by cell *)

Lemma length_valid_values_le (d : field) (mv : Q) (ps : list pos) :
  length (valid_values d mv ps) <= length ps.
Proof.
  unfold valid_values. etransitivity; [apply filter_length_le|]. now rewrite length_map.
Qed.

Lemma hcount_length (d : field) (mv : Q) k j i :
  (hcount d mv k j i ==
   inject_Z (Z.of_nat (length (valid_values d mv (horizontal_neighbours (shape d) k j i)))))%Q.
Proof.
  unfold valid_values. rewrite horizontal_values. unfold hcount, valid_of. cbn [filter].
  split_valid mv; cbn [negb filter length]; reflexivity.
Qed.

Lemma zcount_length (d : field) (mv : Q) k j i :
  (zcount d mv k j i ==
   inject_Z (Z.of_nat (length (valid_values d mv (vertical_neighbours (shape d) k j i)))))%Q.
Proof.
  unfold valid_values. rewrite vertical_values. unfold zcount, valid_of. cbn [filter].
  split_valid mv; cbn [negb filter length]; reflexivity.
Qed.

(** X4: on a field with at least one cell, [neighbours] returns nine arrays
    of the shape of the field; at each cell the first four hold the values
    found to the west, east, south and north (the cell itself on an edge),
    the next four are 1 where that value differs from [missing_val] and 0
    where it equals it, and the last one is the number of the four that
    differ, between 0 and 4. *)
Theorem neighbours_cells (data : field) (missing_val : Q) (k j i : nat) :
  in_bounds data k j i ->
  exists data_w data_e data_s data_n valid_w valid_e valid_s valid_n num_valid_neighbours,
    neighbours data missing_val =
      Ok (data_w, data_e, data_s, data_n, valid_w, valid_e, valid_s, valid_n,
          num_valid_neighbours) /\
    Forall (fun a : field => shape a = shape data)
      [data_w; data_e; data_s; data_n; valid_w; valid_e; valid_s; valid_n;
       num_valid_neighbours] /\
    [data_w.[k, j, i]; data_e.[k, j, i]; data_s.[k, j, i]; data_n.[k, j, i]] =
      map (at_pos data) (horizontal_neighbours (shape data) k j i) /\
    [valid_w.[k, j, i]; valid_e.[k, j, i]; valid_s.[k, j, i]; valid_n.[k, j, i]] =
      map (fun v => if Qeq_bool v missing_val then 0%Q else 1%Q)
        (map (at_pos data) (horizontal_neighbours (shape data) k j i)) /\
    (num_valid_neighbours.[k, j, i] ==
     inject_Z (Z.of_nat (length (valid_values data missing_val
                                   (horizontal_neighbours (shape data) k j i)))))%Q /\
    length (valid_values data missing_val (horizontal_neighbours (shape data) k j i)) <= 4.
Proof.
  intros Hb. rewrite horizontal_values.
  pose proof (hcount_length data missing_val k j i) as Hc.
  pose proof (length_valid_values_le data missing_val
                (horizontal_neighbours (shape data) k j i)) as Hl.
  replace (length (horizontal_neighbours (shape data) k j i)) with 4 in Hl
    by (unfold horizontal_neighbours; destruct (shape data) as [[? ?] ?]; reflexivity).
  revert Hc Hl. generalize (valid_values data missing_val
                              (horizontal_neighbours (shape data) k j i)). intros vs Hc Hl.
  unfold in_bounds in Hb. unfold neighbours.
  destruct (shape data) as [[nz ny] nx] eqn:Hs. destruct Hb as (Hk & Hj & Hi).
  replace ((nx =? 0) || (ny =? 0)) with false
    by (symmetry; apply orb_false_iff; split; apply Nat.eqb_neq; lia).
  do 9 eexists. split; [reflexivity|].
  split.
  { repeat constructor; apply shape_tab; lia. }
  rewrite !(@get_tab _ _ _ _ _ _ k j i) by assumption.
  unfold hcount, valid_of, cell_w, cell_e, cell_s, cell_n in *. rewrite Hs in *.
  split; [reflexivity|]. split; [reflexivity|]. split; [exact Hc|exact Hl].
Qed.

Lemma neighbours_cells_witness :
  in_bounds field_3x4 0 1 0 /\
  exists data_w data_e data_s data_n valid_w valid_e valid_s valid_n num_valid_neighbours,
    neighbours field_3x4 (-9999) =
      Ok (data_w, data_e, data_s, data_n, valid_w, valid_e, valid_s, valid_n,
          num_valid_neighbours) /\
    Forall (fun a : field => shape a = shape field_3x4)
      [data_w; data_e; data_s; data_n; valid_w; valid_e; valid_s; valid_n;
       num_valid_neighbours] /\
    [data_w.[0, 1, 0]; data_e.[0, 1, 0]; data_s.[0, 1, 0]; data_n.[0, 1, 0]] =
      map (at_pos field_3x4) (horizontal_neighbours (shape field_3x4) 0 1 0) /\
    [valid_w.[0, 1, 0]; valid_e.[0, 1, 0]; valid_s.[0, 1, 0]; valid_n.[0, 1, 0]] =
      map (fun v => if Qeq_bool v (-9999) then 0%Q else 1%Q)
        (map (at_pos field_3x4) (horizontal_neighbours (shape field_3x4) 0 1 0)) /\
    (num_valid_neighbours.[0, 1, 0] ==
     inject_Z (Z.of_nat (length (valid_values field_3x4 (-9999)
                                   (horizontal_neighbours (shape field_3x4) 0 1 0)))))%Q /\
    length (valid_values field_3x4 (-9999) (horizontal_neighbours (shape field_3x4) 0 1 0)) <= 4.
Proof.
  assert (Hb : in_bounds field_3x4 0 1 0) by (unfold in_bounds; cbn; lia).
  split; [exact Hb|].
  exact (@neighbours_cells field_3x4 (-9999) 0 1 0 Hb).
Defined.

(** X5: on a field with at least one cell, [neighbours_z] returns five
    arrays of the shape of the field; at each cell the first two hold the
    values found above and below (the cell itself at the top and at the
    bottom), the next two are their validity flags, and the last one is the
    number of the two that differ from [missing_val], between 0 and 2. *)
Theorem neighbours_z_cells (data : field) (missing_val : Q) (k j i : nat) :
  in_bounds data k j i ->
  exists data_u data_d valid_u valid_d num_valid_neighbours_z,
    neighbours_z data missing_val =
      Ok (data_u, data_d, valid_u, valid_d, num_valid_neighbours_z) /\
    Forall (fun a : field => shape a = shape data)
      [data_u; data_d; valid_u; valid_d; num_valid_neighbours_z] /\
    [data_u.[k, j, i]; data_d.[k, j, i]] =
      map (at_pos data) (vertical_neighbours (shape data) k j i) /\
    [valid_u.[k, j, i]; valid_d.[k, j, i]] =
      map (fun v => if Qeq_bool v missing_val then 0%Q else 1%Q)
        (map (at_pos data) (vertical_neighbours (shape data) k j i)) /\
    (num_valid_neighbours_z.[k, j, i] ==
     inject_Z (Z.of_nat (length (valid_values data missing_val
                                   (vertical_neighbours (shape data) k j i)))))%Q /\
    length (valid_values data missing_val (vertical_neighbours (shape data) k j i)) <= 2.
Proof.
  intros Hb. rewrite vertical_values.
  pose proof (zcount_length data missing_val k j i) as Hc.
  pose proof (length_valid_values_le data missing_val
                (vertical_neighbours (shape data) k j i)) as Hl.
  replace (length (vertical_neighbours (shape data) k j i)) with 2 in Hl
    by (unfold vertical_neighbours; destruct (shape data) as [[? ?] ?]; reflexivity).
  revert Hc Hl. generalize (valid_values data missing_val
                              (vertical_neighbours (shape data) k j i)). intros vs Hc Hl.
  unfold in_bounds in Hb. unfold neighbours_z.
  destruct (shape data) as [[nz ny] nx] eqn:Hs. destruct Hb as (Hk & Hj & Hi).
  replace (nz =? 0) with false by (symmetry; apply Nat.eqb_neq; lia).
  do 5 eexists. split; [reflexivity|].
  split.
  { repeat constructor; apply shape_tab; lia. }
  rewrite !(@get_tab _ _ _ _ _ _ k j i) by assumption.
  unfold zcount, valid_of, cell_u, cell_d in *. rewrite Hs in *.
  split; [reflexivity|]. split; [reflexivity|]. split; [exact Hc|exact Hl].
Qed.

Lemma neighbours_z_cells_witness :
  in_bounds field_2x1x3 0 0 0 /\
  exists data_u data_d valid_u valid_d num_valid_neighbours_z,
    neighbours_z field_2x1x3 (-9999) =
      Ok (data_u, data_d, valid_u, valid_d, num_valid_neighbours_z) /\
    Forall (fun a : field => shape a = shape field_2x1x3)
      [data_u; data_d; valid_u; valid_d; num_valid_neighbours_z] /\
    [data_u.[0, 0, 0]; data_d.[0, 0, 0]] =
      map (at_pos field_2x1x3) (vertical_neighbours (shape field_2x1x3) 0 0 0) /\
    [valid_u.[0, 0, 0]; valid_d.[0, 0, 0]] =
      map (fun v => if Qeq_bool v (-9999) then 0%Q else 1%Q)
        (map (at_pos field_2x1x3) (vertical_neighbours (shape field_2x1x3) 0 0 0)) /\
    (num_valid_neighbours_z.[0, 0, 0] ==
     inject_Z (Z.of_nat (length (valid_values field_2x1x3 (-9999)
                                   (vertical_neighbours (shape field_2x1x3) 0 0 0)))))%Q /\
    length (valid_values field_2x1x3 (-9999) (vertical_neighbours (shape field_2x1x3) 0 0 0)) <= 2.
Proof.
  assert (Hb : in_bounds field_2x1x3 0 0 0) by (unfold in_bounds; cbn; lia).
  split; [exact Hb|].
  exact (@neighbours_z_cells field_2x1x3 (-9999) 0 0 0 Hb).
Defined.

(** ** More on extend_into_mask *)

Lemma extend_into_mask_unmasked (d : field) (mv : Q) (use_3d : bool) (n : nat) :
  extend_into_mask false d mv use_3d n =
  for_range n (fun data => extend_iteration data mv use_3d) d.
Proof.
  unfold extend_into_mask. rewrite andb_false_r. cbn [unmask remask].
  destruct (for_range n _ d); reflexivity.
Qed.

Lemma for_range_add (body : field -> result field) (n m : nat) : forall d : field,
  for_range (n + m) body d = (d' <- for_range n body d ;; for_range m body d').
Proof.
  induction n as [|n IH]; intros d; cbn [Nat.add for_range bind]; [reflexivity|].
  destruct (body d) as [d1|e]; cbn [bind]; [apply IH|reflexivity].
Qed.






(** X7: a field in which every cell holds the missing value has nothing to
    extend from: [extend_into_mask] returns it unchanged, in either mode and
    for any number of iterations. *)
Theorem extend_into_mask_all_missing
    (data : field) (missing_val : Q) (use_3d : bool) (num_iters : nat) :
  rectb data = true -> nonempty data ->
  (forall k j i, in_bounds data k j i -> Qeq_bool data.[k, j, i] missing_val = true) ->
  extend_into_mask false data missing_val use_3d num_iters = Ok data.
Proof.
  intros Hr Hne Hall. rewrite extend_into_mask_unmasked.
  assert (Hstep : extend_iteration data missing_val use_3d = Ok data).
  { rewrite extend_iteration_cells by assumption. f_equal.
    rewrite <- (tab_get 0%Q data Hr) at 3.
    destruct (shape data) as [[nz ny] nx] eqn:Es. apply tab_ext. intros k j i Hk Hj Hi.
    apply region_iteration_cell with (S := fun _ _ _ => true).
    - intros k' j' i' _ _. apply Forall_forall. intros [[? ?] ?] _. reflexivity.
    - intros k' j' i' Hb _. now apply Hall.
    - unfold in_bounds. rewrite Es. auto.
    - reflexivity. }
  induction num_iters as [|n IH]; cbn [for_range]; [reflexivity|].
  rewrite Hstep. exact IH.
Qed.

Lemma extend_into_mask_all_missing_witness :
  rectb (tab (2, 2, 2) (fun _ _ _ => (-9999)%Q)) = true /\
  nonempty (tab (2, 2, 2) (fun _ _ _ => (-9999)%Q)) /\
  (forall k j i, in_bounds (tab (2, 2, 2) (fun _ _ _ => (-9999)%Q)) k j i ->
     Qeq_bool (tab (2, 2, 2) (fun _ _ _ => (-9999)%Q)).[k, j, i] (-9999) = true) /\
  extend_into_mask false (tab (2, 2, 2) (fun _ _ _ => (-9999)%Q)) (-9999) true 3
  = Ok (tab (2, 2, 2) (fun _ _ _ => (-9999)%Q)).
Proof.
  assert (Hr : rectb (tab (2, 2, 2) (fun _ _ _ => (-9999)%Q)) = true) by reflexivity.
  assert (Hne : nonempty (tab (2, 2, 2) (fun _ _ _ => (-9999)%Q)))
    by (unfold nonempty; cbn; lia).
  assert (Hall : forall k j i, in_bounds (tab (2, 2, 2) (fun _ _ _ => (-9999)%Q)) k j i ->
            Qeq_bool (tab (2, 2, 2) (fun _ _ _ => (-9999)%Q)).[k, j, i] (-9999) = true).
  { intros k j i Hb. unfold in_bounds in Hb. cbn in Hb.
    rewrite get_tab by lia. reflexivity. }
  split; [exact Hr|]. split; [exact Hne|]. split; [exact Hall|].
  exact (@extend_into_mask_all_missing _ (-9999) true 3 Hr Hne Hall).
Defined.

(** ** How far the fill reaches *)

Lemma far_missing (n : nat) (d : field) (mv : Q) k j i :
  far n d mv k j i = true -> Qeq_bool d.[k, j, i] mv = true.
Proof. destruct n; cbn [far]; intros H; now apply andb_prop in H. Qed.

Lemma far_neighbours (n : nat) (d : field) (mv : Q) k j i (p : pos) :
  far (S n) d mv k j i = true -> In p (horizontal_neighbours (shape d) k j i) ->
  let '(k', j', i') := p in far n d mv k' j' i' = true.
Proof.
  cbn [far]. intros H Hp. apply andb_prop in H as [_ H].
  rewrite forallb_forall in H. specialize (H p Hp). destruct p as [[k' j'] i']. exact H.
Qed.

Lemma far_hfill (n : nat) (d : field) (mv : Q) k j i :
  far (S n) d mv k j i = true -> hfill d mv k j i = d.[k, j, i].
Proof.
  intros H. unfold hfill. rewrite hcount_pos.
  replace (Qeq_bool (hcount d mv k j i) 0) with true; [now rewrite andb_false_r|].
  symmetry. apply hcount_zero. apply valid_values_nil. apply Forall_forall.
  intros [[k' j'] i'] Hp. pose proof (@far_neighbours n d mv k j i (k', j', i') H Hp) as Hf.
  cbn beta iota in Hf. cbn [at_pos]. exact (@far_missing n d mv k' j' i' Hf).
Qed.

(** One horizontal pass moves the front of the fill by one cell. *)
Lemma far_step (d : field) (mv : Q) (n : nat) : forall k j i,
  in_bounds d k j i ->
  far (S n) d mv k j i = true ->
  far n (tab (shape d) (hfill d mv)) mv k j i = true.
Proof.
  induction n as [|n IH]; intros k j i Hb H.
  - cbn [far]. rewrite get_tab_shape by assumption. rewrite (@far_hfill 0 d mv k j i H).
    rewrite (@far_missing 1 d mv k j i H). reflexivity.
  - assert (Hne : nonempty d) by (eapply in_bounds_nonempty; exact Hb).
    pose proof (@far_hfill (S n) d mv k j i H) as Hh.
    pose proof (@far_missing (S (S n)) d mv k j i H) as Hm.
    cbn [far]. rewrite get_tab_shape by assumption. rewrite Hh, Hm. cbn [andb].
    rewrite shape_tab_shape by assumption.
    apply forallb_forall. intros [[k' j'] i'] Hp.
    pose proof (@far_neighbours (S n) d mv k j i (k', j', i') H Hp) as Hf.
    cbn beta iota in Hf. apply IH; [|exact Hf].
    unfold in_bounds in *. destruct (shape d) as [[nz ny] nx].
    destruct Hb as (Hk & Hj & Hi).
    pose proof (horizontal_neighbours_in_bounds Hk Hj Hi) as Hin.
    rewrite Forall_forall in Hin. exact (Hin _ Hp).
Qed.

(** X8: in 2D mode each iteration extends the data by one cell only: a cell
    with nothing but missing values within [num_iters] steps of it is still
    as it was after [num_iters] iterations. *)
Theorem extend_into_mask_reach (num_iters : nat) :
  forall (data : field) (missing_val : Q) (k j i : nat),
  in_bounds data k j i ->
  far num_iters data missing_val k j i = true ->
  exists out : field,
    extend_into_mask false data missing_val false num_iters = Ok out /\
    out.[k, j, i] = data.[k, j, i].
Proof.
  induction num_iters as [|n IH]; intros data mv k j i Hb Hfar.
  - exists data. rewrite extend_into_mask_unmasked. split; reflexivity.
  - assert (Hne : nonempty data) by (eapply in_bounds_nonempty; exact Hb).
    assert (Hs : shape (tab (shape data) (hfill data mv)) = shape data)
      by now apply shape_tab_shape.
    destruct (IH (tab (shape data) (hfill data mv)) mv k j i) as (out & E & Hout).
    + eapply in_bounds_shape; [symmetry; exact Hs|exact Hb].
    + now apply far_step.
    + exists out. rewrite extend_into_mask_unmasked in *. cbn [for_range].
      rewrite extend_iteration_ok by assumption. cbn [bind]. split; [exact E|].
      rewrite Hout, get_tab_shape by assumption. exact (@far_hfill n data mv k j i Hfar).
Qed.

Lemma extend_into_mask_reach_witness :
  in_bounds row_1x6 0 0 4 /\ far 3 row_1x6 (-9999) 0 0 4 = true /\
  exists out : field,
    extend_into_mask false row_1x6 (-9999) false 3 = Ok out /\
    out.[0, 0, 4] = row_1x6.[0, 0, 4].
Proof.
  assert (Hb : in_bounds row_1x6 0 0 4) by (unfold in_bounds; cbn; lia).
  assert (Hf : far 3 row_1x6 (-9999) 0 0 4 = true) by reflexivity.
  split; [exact Hb|]. split; [exact Hf|].
  exact (@extend_into_mask_reach 3 row_1x6 (-9999) 0 0 4 Hb Hf).
Defined.

(** After three iterations the row is filled three cells deep. *)
Example extend_into_mask_row :
  extend_into_mask false row_1x6 (-9999) false 3
  = Ok [[ [1; 1; 1; 1; -9999; -9999] ]]%Q.
Proof. vm_compute. reflexivity. Qed.

(** X9: iterations compose: running [n + m] iterations in one call is the
    same as a call with [n] iterations followed by a call with [m] on its
    result, errors included. *)
Theorem extend_into_mask_iterations_add
    (data : field) (missing_val : Q) (use_3d : bool) (n m : nat) :
  extend_into_mask false data missing_val use_3d (n + m) =
  (data' <- extend_into_mask false data missing_val use_3d n ;;
   extend_into_mask false data' missing_val use_3d m).
Proof.
  rewrite !extend_into_mask_unmasked, for_range_add.
  destruct (for_range n _ data) as [d1|e]; cbn [bind]; [|reflexivity].
  now rewrite extend_into_mask_unmasked.
Qed.


(** ** What a successful discard_and_fill returns *)

Lemma fill_loop_success (fill : arr3 bool) (mv : Q) (use_3d : bool) (fuel : nat) :
  forall (d out : field),
  fill_loop fuel d fill mv use_3d (num_missing_required d fill mv) = Some (Ok out) ->
  num_missing_required out fill mv = 0 /\
  shape out = shape d /\
  forall k j i, in_bounds d k j i ->
    Qeq_bool d.[k, j, i] mv = false -> out.[k, j, i] = d.[k, j, i].
Proof.
  induction fuel as [|fuel IH]; intros d out H; cbn [fill_loop] in H.
  - destruct (0 <? num_missing_required d fill mv) eqn:E; [discriminate|].
    assert (out = d) by congruence. subst out. apply Nat.ltb_ge in E.
    split; [lia|]. split; [reflexivity|]. auto.
  - destruct (0 <? num_missing_required d fill mv) eqn:E.
    + apply Nat.ltb_lt in E.
      assert (Hne : nonempty d) by (eapply num_pos_nonempty; exact E).
      destruct (step_frame mv use_3d Hne) as (d1 & E1 & Hs1 & Hf1).
      unfold mask_filler_iteration in E1. rewrite E1 in H.
      fold (num_missing_required d1 fill mv) in H.
      destruct (num_missing_required d1 fill mv =? num_missing_required d fill mv);
        [discriminate|].
      destruct (IH d1 out H) as (H0 & Hs & Hf).
      split; [exact H0|]. split; [congruence|].
      intros k j i Hb Hv.
      assert (Hb1 : in_bounds d1 k j i)
        by (eapply in_bounds_shape; [symmetry; exact Hs1|exact Hb]).
      rewrite Hf; [now apply Hf1|assumption|]. rewrite Hf1; assumption.
    + assert (out = d) by congruence. subst out. apply Nat.ltb_ge in E.
      split; [lia|]. split; [reflexivity|]. auto.
Qed.

(** X10: when [discard_and_fill] returns a field, every cell required by the
    fill mask holds a value other than [missing_val], and every cell that
    was neither discarded nor missing on entry still holds its value. *)
Theorem discard_and_fill_success
    (fuel : nat) (data out : field) (discard fill : arr3 bool) (missing_val : Q)
    (use_3d : bool) :
  shape discard = shape data -> shape fill = shape data ->
  discard_and_fill fuel data discard fill missing_val use_3d = Some (Ok out) ->
  forall k j i, in_bounds data k j i ->
    (fill.?[k, j, i] = true -> Qeq_bool out.[k, j, i] missing_val = false) /\
    (discard.?[k, j, i] = false -> Qeq_bool data.[k, j, i] missing_val = false ->
     out.[k, j, i] = data.[k, j, i]).
Proof.
  intros _ _ H k j i Hb. unfold discard_and_fill in H.
  set (d0 := set_where data discard (fun _ _ _ => missing_val)) in *.
  fold (num_missing_required d0 fill missing_val) in H.
  destruct (@fill_loop_success fill missing_val use_3d fuel d0 out H) as (H0 & Hs & Hf).
  assert (Hne : nonempty data) by (eapply in_bounds_nonempty; exact Hb).
  assert (Hs0 : shape d0 = shape data) by (unfold d0, set_where; now apply shape_tab_shape).
  assert (Hb0 : in_bounds d0 k j i)
    by (eapply in_bounds_shape; [symmetry; exact Hs0|exact Hb]).
  assert (Hd0 : d0.[k, j, i] = if discard.?[k, j, i] then missing_val else data.[k, j, i])
    by (unfold d0, set_where; now rewrite get_tab_shape).
  split.
  - intros Hfill. unfold num_missing_required, missing_and_required in H0.
    rewrite Hs, Hs0 in H0. unfold in_bounds in Hb.
    destruct (shape data) as [[nz ny] nx]. destruct Hb as (Hk & Hj & Hi).
    pose proof (count_nonzero_zero _ H0 Hk Hj Hi) as Hz. cbv beta in Hz.
    rewrite Hfill, andb_true_r in Hz. exact Hz.
  - intros Hnd Hv. rewrite Hnd in Hd0. rewrite Hf; [exact Hd0|exact Hb0|].
    now rewrite Hd0.
Qed.

Lemma discard_and_fill_success_witness :
  shape (mask_const (2, 2, 2) false) = shape field_2x2x2 /\
  shape (mask_const (2, 2, 2) true) = shape field_2x2x2 /\
  discard_and_fill 4 field_2x2x2 (mask_const (2, 2, 2) false) (mask_const (2, 2, 2) true)
    (-9999) true
  = Some (Ok [ [ [1; 2]; [3; 4] ]; [ [1; 2]; [3; 4] ] ]%Q) /\
  forall k j i, in_bounds field_2x2x2 k j i ->
    ((mask_const (2, 2, 2) true).?[k, j, i] = true ->
     Qeq_bool [ [ [1; 2]; [3; 4] ]; [ [1; 2]; [3; 4] ] ]%Q.[k, j, i] (-9999) = false) /\
    ((mask_const (2, 2, 2) false).?[k, j, i] = false ->
     Qeq_bool field_2x2x2.[k, j, i] (-9999) = false ->
     [ [ [1; 2]; [3; 4] ]; [ [1; 2]; [3; 4] ] ]%Q.[k, j, i] = field_2x2x2.[k, j, i]).
Proof.
  assert (H1 : shape (mask_const (2, 2, 2) false) = shape field_2x2x2) by reflexivity.
  assert (H2 : shape (mask_const (2, 2, 2) true) = shape field_2x2x2) by reflexivity.
  assert (H3 : discard_and_fill 4 field_2x2x2 (mask_const (2, 2, 2) false)
                 (mask_const (2, 2, 2) true) (-9999) true
               = Some (Ok [ [ [1; 2]; [3; 4] ]; [ [1; 2]; [3; 4] ] ]%Q))
    by (vm_compute; reflexivity).
  split; [exact H1|]. split; [exact H2|]. split; [exact H3|].
  exact (@discard_and_fill_success 4 field_2x2x2 _ (mask_const (2, 2, 2) false)
           (mask_const (2, 2, 2) true) (-9999) true H1 H2 H3).
Defined.

(** ** More on interp_slice_helper *)



(** X12: on an increasing axis, a value equal to a sample other than the
    last one gets that sample with weight 1 and the next one with weight 0. *)
Theorem interp_slice_helper_at_sample (data : list Q) (m : nat) (lon : bool) :
  increasing data -> m + 1 < length data ->
  exists c1 c2 : Q,
    interp_slice_helper data (item data m) lon = Ok (m, m + 1, c1, c2) /\
    (c1 == 1)%Q /\ (c2 == 0)%Q.
Proof.
  intros Hinc Hm. unfold interp_slice_helper.
  pose proof (first_greater data (item data m)) as H.
  assert (Hnext : (item data m < item data (m + 1))%Q) by (apply Hinc; lia).
  destruct (first (nonzero (map (fun x => Qgtb x (item data m)) data))) as [i2|e].
  - destruct H as (Hi & Hgt & Hle). cbn [bind].
    assert (i2 = m + 1).
    { destruct (Nat.lt_trichotomy i2 (m + 1)) as [Hlt | [Heq | Hgt']].
      - exfalso. destruct (Nat.eq_dec i2 m) as [-> | Hne]; [lra|].
        assert (item data i2 < item data m)%Q by (apply Hinc; lia). lra.
      - exact Heq.
      - exfalso. specialize (Hle (m + 1) Hgt'). lra. }
    subst i2. replace (0 <? m + 1) with true by (symmetry; apply Nat.ltb_lt; lia).
    replace (m + 1 - 1) with m by lia.
    do 2 eexists. split; [reflexivity|].
    assert (Hd : ~ (item data (m + 1) - item data m == 0)%Q) by lra.
    split; field; exact Hd.
  - destruct H as (_ & Hall). exfalso. specialize (Hall (m + 1) Hm). lra.
Qed.

Lemma interp_slice_helper_at_sample_witness :
  increasing [0; 10; 20; 40]%Q /\ 2 + 1 < length [0; 10; 20; 40]%Q /\
  exists c1 c2 : Q,
    interp_slice_helper [0; 10; 20; 40]%Q (item [0; 10; 20; 40]%Q 2) true
    = Ok (2, 2 + 1, c1, c2) /\
    (c1 == 1)%Q /\ (c2 == 0)%Q.
Proof.
  assert (Hinc : increasing [0; 10; 20; 40]%Q)
    by (apply strictly_ascending_increasing; reflexivity).
  assert (Hm : 2 + 1 < length [0; 10; 20; 40]%Q) by (cbn; lia).
  split; [exact Hinc|]. split; [exact Hm|].
  exact (@interp_slice_helper_at_sample [0; 10; 20; 40]%Q 2 true Hinc Hm).
Defined.

(** X13: outside the span of an increasing axis the two sides differ.  A
    value below the first sample (with [lon=False], or too far below for the
    periodic gap) takes the out-of-bounds exit; a value equal to the last
    sample or above it never reaches that exit: the search for the first
    greater entry fails with an IndexError. *)
Theorem interp_slice_helper_outside_axis (data : list Q) (val0 : Q) (lon : bool) :
  increasing data -> 0 < length data ->
  ((val0 < item data 0)%Q ->
   lon = false \/ (val0 <= last_item data - 360)%Q ->
   interp_slice_helper data val0 lon = Raise (OutOfBoundsError val0)) /\
  ((last_item data <= val0)%Q ->
   interp_slice_helper data val0 lon = Raise IndexError).
Proof.
  intros Hinc Hlen. split.
  - intros Hlt Hno. now apply interp_slice_helper_below.
  - intros Hge. apply interp_slice_helper_no_greater. intros m Hm.
    unfold last_item in Hge.
    destruct (Nat.eq_dec m (length data - 1)) as [-> | Hne]; [exact Hge|].
    assert (Hlt : (item data m < item data (length data - 1))%Q) by (apply Hinc; lia).
    unfold item in *. lra.
Qed.

Lemma interp_slice_helper_outside_axis_witness :
  increasing [0; 10; 20; 40]%Q /\ 0 < length [0; 10; 20; 40]%Q /\
  interp_slice_helper [0; 10; 20; 40]%Q (-5) false = Raise (OutOfBoundsError (-5)) /\
  interp_slice_helper [0; 10; 20; 40]%Q 40 true = Raise IndexError.
Proof.
  assert (Hinc : increasing [0; 10; 20; 40]%Q)
    by (apply strictly_ascending_increasing; reflexivity).
  assert (Hlen : 0 < length [0; 10; 20; 40]%Q) by (cbn; lia).
  split; [exact Hinc|]. split; [exact Hlen|]. split.
  - apply (proj1 (@interp_slice_helper_outside_axis [0; 10; 20; 40]%Q (-5) false Hinc Hlen)).
    + reflexivity.
    + left. reflexivity.
  - apply (proj2 (@interp_slice_helper_outside_axis [0; 10; 20; 40]%Q 40 true Hinc Hlen)).
    discriminate.
Defined.




(** ** interp_grid *)

Section InterpGridProofs.

Variables mask_3d mask_land_zice mask_land : field -> Grid -> gtype -> bool -> MaskedArray.

(** X15: [interp_grid] refuses [mask_shelf=True] on a depth-dependent
    field before anything else, and otherwise refuses every pair of grid
    types other than u to t and v to t. *)
Theorem interp_grid_errors (data : MaskedArray) (grid : Grid) (gtype_in gtype_out : gtype)
    (time_dependent mask_shelf : bool) :
  (mask_shelf = true -> time_dependent = false ->
   interp_grid mask_3d mask_land_zice mask_land data grid gtype_in gtype_out
     time_dependent mask_shelf = Raise ConflictingConfigError) /\
  (mask_shelf = false \/ time_dependent = true ->
   gtype_out <> gtype_t \/ (gtype_in <> gtype_u /\ gtype_in <> gtype_v) ->
   interp_grid mask_3d mask_land_zice mask_land data grid gtype_in gtype_out
     time_dependent mask_shelf = Raise UsageError).
Proof.
  split.
  - intros -> ->. reflexivity.
  - intros Hok Hpair. unfold interp_grid.
    replace (mask_shelf && negb time_dependent) with false
      by (destruct Hok as [-> | ->]; [reflexivity|now rewrite andb_false_r]).
    destruct (shape _) as [[nz ny] nx].
    destruct gtype_in, gtype_out; try reflexivity;
      destruct Hpair as [H | [H1 H2]]; congruence.
Qed.

(** X16: a velocity field without masked cells that holds the same value
    everywhere is handed to the masking function with that value in every
    cell, from the u grid as from the v grid: the midpoints and the
    repeated last column or row preserve constants. *)
Theorem interp_grid_constant (data : MaskedArray) (grid : Grid) (gtype_in : gtype)
    (time_dependent mask_shelf : bool) (c : Q) :
  gtype_in = gtype_u \/ gtype_in = gtype_v ->
  mask_shelf = false \/ time_dependent = true ->
  nonempty (ma_data data) ->
  (forall k j i, in_bounds (ma_data data) k j i ->
     (ma_mask data).?[k, j, i] = false /\ ((ma_data data).[k, j, i] == c)%Q) ->
  exists data_interp : field,
    interp_grid mask_3d mask_land_zice mask_land data grid gtype_in gtype_t
      time_dependent mask_shelf
    = Ok ((if negb time_dependent then mask_3d
           else if mask_shelf then mask_land_zice else mask_land)
            data_interp grid gtype_t time_dependent) /\
    shape data_interp = shape (ma_data data) /\
    forall k j i, in_bounds (ma_data data) k j i -> (data_interp.[k, j, i] == c)%Q.
Proof.
  intros Hg Hok Hne Hall. unfold interp_grid.
  replace (mask_shelf && negb time_dependent) with false
    by (destruct Hok as [-> | ->]; [reflexivity|now rewrite andb_false_r]).
  set (tmp := set_where (ma_data data) (ma_mask data) (fun _ _ _ => 0%Q)).
  assert (Hs : shape tmp = shape (ma_data data))
    by (unfold tmp, set_where; now apply shape_tab_shape).
  assert (Htmp : forall k j i, in_bounds (ma_data data) k j i -> (tmp.[k, j, i] == c)%Q).
  { intros k j i Hb. unfold tmp, set_where. rewrite get_tab_shape by assumption.
    destruct (Hall k j i Hb) as [-> Hc]. exact Hc. }
  unfold nonempty, in_bounds in *.
  destruct (shape (ma_data data)) as [[nz ny] nx] eqn:Es. destruct Hne as (Hz & Hy & Hx).
  destruct Hg as [-> | ->]; cbv iota; rewrite Hs.
  - replace (nx =? 0) with false by (symmetry; apply Nat.eqb_neq; lia). cbn [bind].
    eexists. split.
    { destruct (negb time_dependent); [reflexivity|]. destruct mask_shelf; reflexivity. }
    split; [apply shape_tab; lia|].
    intros k j i (Hk & Hj & Hi). rewrite get_tab by assumption.
    destruct (i =? nx - 1) eqn:Ei.
    + apply Htmp. lia.
    + apply Nat.eqb_neq in Ei. rewrite (Htmp k j i), (Htmp k j (i + 1)) by lia. field.
  - replace (ny =? 0) with false by (symmetry; apply Nat.eqb_neq; lia). cbn [bind].
    eexists. split.
    { destruct (negb time_dependent); [reflexivity|]. destruct mask_shelf; reflexivity. }
    split; [apply shape_tab; lia|].
    intros k j i (Hk & Hj & Hi). rewrite get_tab by assumption.
    destruct (j =? ny - 1) eqn:Ej.
    + apply Htmp. lia.
    + apply Nat.eqb_neq in Ej. rewrite (Htmp k j i), (Htmp k (j + 1) i) by lia. field.
Qed.

End InterpGridProofs.

Lemma interp_grid_errors_witness :
  interp_grid mask_nothing mask_nothing mask_nothing ones_1x2x3 source_grid_2x3
    gtype_u gtype_t false true = Raise ConflictingConfigError /\
  interp_grid mask_nothing mask_nothing mask_nothing ones_1x2x3 source_grid_2x3
    gtype_psi gtype_t true false = Raise UsageError.
Proof.
  split.
  - exact (proj1 (@interp_grid_errors mask_nothing mask_nothing mask_nothing ones_1x2x3
                    source_grid_2x3 gtype_u gtype_t false true) eq_refl eq_refl).
  - apply (proj2 (@interp_grid_errors mask_nothing mask_nothing mask_nothing ones_1x2x3
                    source_grid_2x3 gtype_psi gtype_t true false)).
    + right. reflexivity.
    + right. split; discriminate.
Defined.

Lemma interp_grid_constant_witness :
  (gtype_u = gtype_u \/ gtype_u = gtype_v) /\
  (false = false \/ true = true) /\
  nonempty (ma_data ones_1x2x3) /\
  (forall k j i, in_bounds (ma_data ones_1x2x3) k j i ->
     (ma_mask ones_1x2x3).?[k, j, i] = false /\ ((ma_data ones_1x2x3).[k, j, i] == 1)%Q) /\
  exists data_interp : field,
    interp_grid mask_nothing mask_nothing mask_nothing ones_1x2x3 source_grid_2x3
      gtype_u gtype_t true false
    = Ok (mask_nothing data_interp source_grid_2x3 gtype_t true) /\
    shape data_interp = shape (ma_data ones_1x2x3) /\
    forall k j i, in_bounds (ma_data ones_1x2x3) k j i -> (data_interp.[k, j, i] == 1)%Q.
Proof.
  assert (Hg : gtype_u = gtype_u \/ gtype_u = gtype_v) by (left; reflexivity).
  assert (Hok : false = false \/ true = true) by (left; reflexivity).
  assert (Hne : nonempty (ma_data ones_1x2x3)) by (unfold nonempty; cbn; lia).
  assert (Hall : forall k j i, in_bounds (ma_data ones_1x2x3) k j i ->
            (ma_mask ones_1x2x3).?[k, j, i] = false
            /\ ((ma_data ones_1x2x3).[k, j, i] == 1)%Q).
  { intros k j i Hb. unfold in_bounds in Hb. cbn in Hb. destruct Hb as (Hk & Hj & Hi).
    assert (k = 0) by lia. subst k.
    assert (Hji : (j = 0 \/ j = 1) /\ (i = 0 \/ i = 1 \/ i = 2)) by lia.
    destruct Hji as [[-> | ->] [-> | [-> | ->]]]; split; reflexivity. }
  split; [exact Hg|]. split; [exact Hok|]. split; [exact Hne|]. split; [exact Hall|].
  exact (@interp_grid_constant mask_nothing mask_nothing mask_nothing ones_1x2x3
           source_grid_2x3 gtype_u true false 1 Hg Hok Hne Hall).
Defined.

(** ** interp_topo *)

Lemma mapM_ok {A B} (f : A -> result B) (g : A -> B) (l : list A) :
  (forall x, In x l -> f x = Ok (g x)) -> mapM f l = Ok (map g l).
Proof.
  induction l as [|x l IH]; intros H; cbn [mapM map]; [reflexivity|].
  rewrite H by (now left). cbn [bind]. rewrite IH by (intros; apply H; now right).
  reflexivity.
Qed.

Lemma index2_ok (a : list (list Q)) (rows cols j i : nat) :
  shape_matches_2d a rows cols = true -> j < rows -> i < cols ->
  index2 a j i = Ok (nth i (nth j a []) 0%Q).
Proof.
  unfold shape_matches_2d. intros H Hj Hi. apply andb_prop in H as [Hr Hc].
  apply Nat.eqb_eq in Hr. rewrite forallb_forall in Hc. unfold index2.
  assert (Hin : In (nth j a []) a) by (apply nth_In; lia).
  specialize (Hc _ Hin). apply Nat.eqb_eq in Hc.
  rewrite (nth_error_nth' a []) by lia.
  rewrite (nth_error_nth' (nth j a []) 0%Q) by lia. reflexivity.
Qed.

Lemma removelast_map_seq {A} (g : nat -> A) (n : nat) :
  removelast (map g (seq 0 (S n))) = map g (seq 0 n).
Proof.
  rewrite seq_S, map_app. cbn [map Nat.add]. apply removelast_last.
Qed.

Lemma linspace_length (a b : Q) (n : nat) :
  0 < n -> length (linspace a b (n + 1)) = n + 1.
Proof.
  intros Hn. unfold linspace. replace (1 <? n + 1) with true by (symmetry; apply Nat.ltb_lt; lia).
  replace (n + 1) with (S n) by lia. rewrite removelast_map_seq.
  rewrite length_app, length_map, length_seq. cbn. lia.
Qed.

Lemma linspace_nth (a b : Q) (n k : nat) :
  0 < n -> k <= n ->
  (nth k (linspace a b (n + 1)) 0 == a + inject_Z (Z.of_nat k) / inject_Z (Z.of_nat n) * (b - a))%Q.
Proof.
  intros Hn Hk. unfold linspace.
  replace (1 <? n + 1) with true by (symmetry; apply Nat.ltb_lt; lia).
  replace (n + 1) with (S n) by lia. rewrite removelast_map_seq.
  replace (S n - 1) with n by lia.
  assert (Hnz : ~ (inject_Z (Z.of_nat n) == 0)%Q).
  { unfold Qeq. cbn. lia. }
  destruct (Nat.eq_dec k n) as [-> | Hne].
  - rewrite app_nth2 by (rewrite length_map, length_seq; lia).
    rewrite length_map, length_seq, Nat.sub_diag. cbn [nth]. field. exact Hnz.
  - rewrite app_nth1 by (rewrite length_map, length_seq; lia).
    rewrite nth_map_seq by lia. field. exact Hnz.
Qed.

Lemma nth_removelast {A} (l : list A) (d : A) (k : nat) :
  k < length l - 1 -> nth k (removelast l) d = nth k l d.
Proof.
  revert k. induction l as [|x l IH]; intros k Hk; [reflexivity|].
  destruct l as [|y l]; [cbn in Hk; lia|].
  change (removelast (x :: y :: l)) with (x :: removelast (y :: l)).
  destruct k as [|k]; [reflexivity|]. cbn [nth]. apply IH. cbn [length] in *. lia.
Qed.

Lemma length_removelast {A} (l : list A) : length (removelast l) = length l - 1.
Proof.
  induction l as [|x l IH]; [reflexivity|].
  destruct l as [|y l]; [reflexivity|].
  change (removelast (x :: y :: l)) with (x :: removelast (y :: l)).
  cbn [length] in *. lia.
Qed.

Lemma midpoints_nth (edges : list Q) (k : nat) :
  k < length edges - 1 ->
  nth k (midpoints edges) 0%Q = ((1 # 2) * (nth (S k) edges 0 + nth k edges 0))%Q.
Proof.
  intros Hk. unfold midpoints.
  assert (Hlen : length (tl edges) = length (removelast edges)).
  { rewrite length_removelast. destruct edges; cbn; lia. }
  rewrite (nth_map_in _ _ (0%Q, 0%Q)).
  - rewrite combine_nth by exact Hlen.
    rewrite nth_removelast by exact Hk.
    destruct edges as [|e edges]; [cbn in Hk; lia|]. reflexivity.
  - rewrite length_combine, <- Hlen, Nat.min_id.
    destruct edges; cbn in *; lia.
Qed.

Lemma midpoints_length (edges : list Q) : length (midpoints edges) = length edges - 1.
Proof.
  unfold midpoints. rewrite length_map, length_combine, length_removelast.
  destruct edges; cbn; lia.
Qed.

(** The centres of the sub-cells between two edges. *)
Lemma subgrid_centres (a b : Q) (n : nat) :
  0 < n ->
  length (midpoints (linspace a b (n + 1))) = n /\
  forall k, k < n ->
    (nth k (midpoints (linspace a b (n + 1))) 0 == centre a b n k)%Q.
Proof.
  intros Hn. split.
  - rewrite midpoints_length, linspace_length by assumption. lia.
  - intros k Hk. rewrite midpoints_nth by (rewrite linspace_length by assumption; lia).
    rewrite (linspace_nth a b Hn (k := S k)) by lia.
    rewrite (linspace_nth a b Hn (k := k)) by lia.
    unfold centre.
    assert (Hnz : ~ (inject_Z (Z.of_nat n) == 0)%Q) by (unfold Qeq, inject_Z; cbn [Qnum Qden]; lia).
    assert (Hnz2 : ~ (inject_Z (2 * Z.of_nat n) == 0)%Q) by (unfold Qeq, inject_Z; cbn [Qnum Qden]; lia).
    rewrite Nat2Z.inj_succ. unfold Z.succ.
    rewrite !inject_Z_plus, !inject_Z_mult. change (inject_Z 2) with 2%Q.
    change (inject_Z 1) with 1%Q. field. exact Hnz.
Qed.

Lemma centre_inside (lo hi : Q) (n k : nat) :
  (lo < hi)%Q -> k < n -> (lo < centre lo hi n k /\ centre lo hi n k < hi)%Q.
Proof.
  intros Hlt Hk. unfold centre.
  set (t := (inject_Z (2 * Z.of_nat k + 1) / inject_Z (2 * Z.of_nat n))%Q).
  assert (Hd : (0 < inject_Z (2 * Z.of_nat n))%Q) by (unfold Qlt, inject_Z; cbn [Qnum Qden]; lia).
  assert (Ht0 : (0 < t)%Q).
  { unfold t. apply Qlt_shift_div_l; [exact Hd|]. rewrite Qmult_0_l.
    unfold Qlt, inject_Z. cbn [Qnum Qden]. lia. }
  assert (Ht1 : (t < 1)%Q).
  { unfold t. apply Qlt_shift_div_r; [exact Hd|]. rewrite Qmult_1_l.
    rewrite <- Zlt_Qlt. lia. }
  split; nra.
Qed.

Section InterpTopoProofs.

Variable RectBivariateSpline :
  list Q -> list Q -> list (list Q) -> result (list Q -> list Q -> list (list Q)).

Lemma interp_topo_ok (x y : list Q) (data x_interp y_interp : list (list Q))
    (n_subgrid rows cols : nat) (f : list Q -> list Q -> list (list Q)) :
  RectBivariateSpline y x data = Ok f ->
  shape_matches_2d x_interp rows cols = true ->
  shape_matches_2d y_interp rows cols = true ->
  0 < rows -> 0 < cols ->
  interp_topo RectBivariateSpline x y data x_interp y_interp n_subgrid =
  Ok (map (fun j => map (fun i => topo_cell f x_interp y_interp n_subgrid j i)
                      (seq 0 (cols - 1))) (seq 0 (rows - 1))).
Proof.
  intros Hf Hx Hy Hr Hc. unfold interp_topo. rewrite Hf.
  assert (Hrows : length y_interp = rows).
  { unfold shape_matches_2d in Hy. apply andb_prop in Hy as [Hy _].
    now apply Nat.eqb_eq in Hy. }
  assert (Hcols : length (hd [] x_interp) = cols).
  { unfold shape_matches_2d in Hx. apply andb_prop in Hx as [Hl Hx].
    apply Nat.eqb_eq in Hl. rewrite forallb_forall in Hx.
    destruct x_interp as [|r x_interp]; [cbn in Hl; lia|].
    apply Nat.eqb_eq. apply Hx. now left. }
  rewrite Hrows, Hcols.
  replace ((rows =? 0) || (cols =? 0)) with false
    by (symmetry; apply orb_false_iff; split; apply Nat.eqb_neq; lia).
  cbn [bind]. apply mapM_ok. intros j Hj. apply in_seq in Hj.
  apply mapM_ok. intros i Hi. apply in_seq in Hi.
  rewrite (@index2_ok x_interp rows cols j i Hx) by lia.
  rewrite (@index2_ok x_interp rows cols j (i + 1) Hx) by lia.
  rewrite (@index2_ok y_interp rows cols j i Hy) by lia.
  rewrite (@index2_ok y_interp rows cols (j + 1) i Hy) by lia.
  cbn [bind]. unfold topo_cell, Qlo, Qhi.
  destruct (Qltb (nth i (nth j x_interp []) 0%Q) (nth (i + 1) (nth j x_interp []) 0%Q));
    destruct (Qltb (nth i (nth j y_interp []) 0%Q) (nth i (nth (j + 1) y_interp []) 0%Q));
    reflexivity.
Qed.

(** X17: for edge arrays of [rows] by [cols] entries and [n_subgrid > 0],
    [interp_topo] returns [rows - 1] by [cols - 1] cells; each is the mean
    of the fitted function over the mesh of the [n_subgrid] sub-cell
    centres in y and in x, which are the points
    [lo + (2k+1)/(2n) * (hi - lo)] between the smaller and the larger of
    the two edges of the cell, whatever the order of the edges. *)
Theorem interp_topo_samples (x y : list Q) (data x_interp y_interp : list (list Q))
    (n_subgrid rows cols : nat) (f : list Q -> list Q -> list (list Q)) :
  RectBivariateSpline y x data = Ok f ->
  shape_matches_2d x_interp rows cols = true ->
  shape_matches_2d y_interp rows cols = true ->
  0 < rows -> 0 < cols -> 0 < n_subgrid ->
  exists out : list (list (option Q)),
    interp_topo RectBivariateSpline x y data x_interp y_interp n_subgrid = Ok out /\
    length out = rows - 1 /\
    forall j i, j < rows - 1 -> i < cols - 1 ->
      length (nth j out []) = cols - 1 /\
      exists xs ys : list Q,
        nth i (nth j out []) None = np_mean (f ys xs) /\
        length xs = n_subgrid /\ length ys = n_subgrid /\
        forall k, k < n_subgrid ->
          (nth k xs 0 == centre (Qlo (nth i (nth j x_interp []) 0) (nth (i + 1) (nth j x_interp []) 0))
                                (Qhi (nth i (nth j x_interp []) 0) (nth (i + 1) (nth j x_interp []) 0))
                                n_subgrid k)%Q /\
          (nth k ys 0 == centre (Qlo (nth i (nth j y_interp []) 0) (nth i (nth (j + 1) y_interp []) 0))
                                (Qhi (nth i (nth j y_interp []) 0) (nth i (nth (j + 1) y_interp []) 0))
                                n_subgrid k)%Q.
Proof.
  intros Hf Hx Hy Hr Hc Hn.
  rewrite (@interp_topo_ok x y data x_interp y_interp n_subgrid rows cols f Hf Hx Hy Hr Hc).
  eexists. split; [reflexivity|].
  split; [now rewrite length_map, length_seq|].
  intros j i Hj Hi.
  rewrite (nth_map_in _ _ 0) by (rewrite length_seq; lia). rewrite seq_nth by lia.
  split; [now rewrite length_map, length_seq|].
  rewrite (nth_map_in _ _ 0) by (rewrite length_seq; lia). rewrite seq_nth by lia.
  cbn [Nat.add]. unfold topo_cell.
  set (xa := nth i (nth j x_interp []) 0%Q). set (xb := nth (i + 1) (nth j x_interp []) 0%Q).
  set (ya := nth i (nth j y_interp []) 0%Q). set (yb := nth i (nth (j + 1) y_interp []) 0%Q).
  destruct (subgrid_centres (Qlo xa xb) (Qhi xa xb) Hn) as [Hlx Hcx].
  destruct (subgrid_centres (Qlo ya yb) (Qhi ya yb) Hn) as [Hly Hcy].
  do 2 eexists. split; [reflexivity|]. split; [exact Hlx|]. split; [exact Hly|].
  intros k Hk. split; [now apply Hcx|now apply Hcy].
Qed.

(** X18: when the fitted function is [c] wherever it is evaluated, every
    cell returned by [interp_topo] is [c], whatever the number of
    sub-cells. *)
Theorem interp_topo_constant (x y : list Q) (data x_interp y_interp : list (list Q))
    (n_subgrid rows cols : nat) (f : list Q -> list Q -> list (list Q)) (c : Q) :
  RectBivariateSpline y x data = Ok f ->
  shape_matches_2d x_interp rows cols = true ->
  shape_matches_2d y_interp rows cols = true ->
  0 < rows -> 0 < cols -> 0 < n_subgrid ->
  (forall ys xs, ys <> [] -> xs <> [] ->
     concat (f ys xs) <> [] /\ Forall (fun v => v == c)%Q (concat (f ys xs))) ->
  exists out : list (list (option Q)),
    interp_topo RectBivariateSpline x y data x_interp y_interp n_subgrid = Ok out /\
    forall j i, j < rows - 1 -> i < cols - 1 ->
      exists v : Q, nth i (nth j out []) None = Some v /\ (v == c)%Q.
Proof.
  intros Hf Hx Hy Hr Hc Hn Hconst.
  rewrite (@interp_topo_ok x y data x_interp y_interp n_subgrid rows cols f Hf Hx Hy Hr Hc).
  eexists. split; [reflexivity|].
  intros j i Hj Hi.
  rewrite (nth_map_in _ _ 0) by (rewrite length_seq; lia). rewrite seq_nth by lia.
  rewrite (nth_map_in _ _ 0) by (rewrite length_seq; lia). rewrite seq_nth by lia.
  cbn [Nat.add]. unfold topo_cell, np_mean.
  match goal with |- context [f ?ys ?xs] =>
    destruct (Hconst ys xs) as [Hne Hall] end.
  - intros E. apply (f_equal (@length Q)) in E.
    rewrite (proj1 (subgrid_centres _ _ Hn)) in E. cbn in E. lia.
  - intros E. apply (f_equal (@length Q)) in E.
    rewrite (proj1 (subgrid_centres _ _ Hn)) in E. cbn in E. lia.
  - match goal with |- context [concat ?a] =>
      destruct (concat a) as [|v vs] eqn:Ec; [congruence|] end.
    eexists. split; [reflexivity|]. apply mean_const; [discriminate|exact Hall].
Qed.

End InterpTopoProofs.

Lemma interp_topo_samples_witness :
  constant_spline 7 [] [] [] = Ok (fun ys xs => map (fun _ => map (fun _ => 7%Q) xs) ys) /\
  shape_matches_2d x_edges_2x3 2 3 = true /\ shape_matches_2d y_edges_2x3 2 3 = true /\
  0 < 2 /\ 0 < 3 /\ 0 < 2 /\
  exists out : list (list (option Q)),
    interp_topo (constant_spline 7) [] [] [] x_edges_2x3 y_edges_2x3 2 = Ok out /\
    length out = 2 - 1.
Proof.
  assert (Hf : constant_spline 7 [] [] []
               = Ok (fun ys xs => map (fun _ => map (fun _ => 7%Q) xs) ys)) by reflexivity.
  assert (Hx : shape_matches_2d x_edges_2x3 2 3 = true) by reflexivity.
  assert (Hy : shape_matches_2d y_edges_2x3 2 3 = true) by reflexivity.
  assert (Hr : 0 < 2) by lia. assert (Hc : 0 < 3) by lia.
  split; [exact Hf|]. split; [exact Hx|]. split; [exact Hy|].
  split; [exact Hr|]. split; [exact Hc|]. split; [exact Hr|].
  destruct (@interp_topo_samples (constant_spline 7) [] [] [] x_edges_2x3 y_edges_2x3
              2 2 3 _ Hf Hx Hy Hr Hc Hr) as (out & E & Hlen & _).
  exists out. split; [exact E|exact Hlen].
Defined.

Lemma interp_topo_constant_witness :
  exists out : list (list (option Q)),
    interp_topo (constant_spline 7) [] [] [] x_edges_2x3 y_edges_2x3 2 = Ok out /\
    forall j i, j < 2 - 1 -> i < 3 - 1 ->
      exists v : Q, nth i (nth j out []) None = Some v /\ (v == 7)%Q.
Proof.
  apply (@interp_topo_constant (constant_spline 7) [] [] [] x_edges_2x3 y_edges_2x3
           2 2 3 (fun ys xs => map (fun _ => map (fun _ => 7%Q) xs) ys) 7).
  - reflexivity.
  - reflexivity.
  - reflexivity.
  - lia.
  - lia.
  - lia.
  - intros ys xs Hys Hxs. destruct ys as [|y0 ys]; [congruence|].
    destruct xs as [|x0 xs]; [congruence|]. split; [discriminate|].
    apply Forall_concat. apply Forall_forall. intros row Hrow.
    apply in_map_iff in Hrow as (_ & <- & _).
    apply Forall_forall. intros v Hv. apply in_map_iff in Hv as (_ & <- & _). reflexivity.
Defined.

(** ** interp_bdry *)


(** ** Masked input *)

(** X20: with [masked=True], [extend_into_mask] never returns, whatever the
    array, the mode and the number of iterations: a missing value other than
    -9999 is refused on entry, and with -9999 all iterations are run and the
    conversion back to a MaskedArray fails on the unbound name [ma]. *)
Theorem extend_into_mask_masked_never_returns
    (data : MaskedArray) (missing_val : Q) (use_3d : bool) (num_iters : nat) :
  nonempty (ma_data data) ->
  extend_into_mask true data missing_val use_3d num_iters =
  Raise (if Qeq_bool missing_val (-9999) then NameError "ma" else ConflictingConfigError).
Proof.
  intros Hne. destruct (Qeq_bool missing_val (-9999)) eqn:E.
  - unfold extend_into_mask. rewrite E. cbn [negb andb].
    assert (Hne' : nonempty (unmask true data missing_val)).
    { eapply nonempty_shape; [|exact Hne]. symmetry. cbn [unmask]. unfold set_where.
      now apply shape_tab_shape. }
    destruct (for_range_frame missing_val use_3d num_iters Hne') as (out & Ef & _).
    rewrite Ef. reflexivity.
  - now apply extend_into_mask_conflicting_config.
Qed.

Lemma extend_into_mask_masked_never_returns_witness :
  nonempty (ma_data masked_3x4) /\
  extend_into_mask true masked_3x4 (-9999) true 2 = Raise (NameError "ma") /\
  extend_into_mask true masked_3x4 0 true 2 = Raise ConflictingConfigError.
Proof.
  assert (Hne : nonempty (ma_data masked_3x4)) by (unfold nonempty; cbn; lia).
  split; [exact Hne|]. split.
  - exact (@extend_into_mask_masked_never_returns masked_3x4 (-9999) true 2 Hne).
  - exact (@extend_into_mask_masked_never_returns masked_3x4 0 true 2 Hne).
Defined.

(** ** Nothing to fill *)

Lemma shape_tab_any {A B} (a : arr3 A) (f : nat -> nat -> nat -> B) :
  shape (tab (shape a) f) = shape a.
Proof.
  destruct a as [|p a]; [reflexivity|].
  destruct p as [|r p]; unfold shape, tab; cbn [length hd seq map];
    rewrite ?length_map, ?length_seq; reflexivity.
Qed.

Lemma count_nonzero_none nz ny nx (f : nat -> nat -> nat -> bool) :
  (forall k j i, k < nz -> j < ny -> i < nx -> f k j i = false) ->
  count_nonzero (tab (nz, ny, nx) f) = 0.
Proof.
  intros H. rewrite count_nonzero_tab.
  apply list_sum_zero. intros k Hk. apply in_seq in Hk.
  apply list_sum_zero. intros j Hj. apply in_seq in Hj.
  apply list_sum_zero. intros i Hi. apply in_seq in Hi.
  rewrite H by lia. reflexivity.
Qed.

(** X21: when every cell required by the fill mask is neither discarded nor
    missing, [discard_and_fill] runs no iteration: it returns the field with
    the discarded cells set to [missing_val], and the other missing cells
    are left as they are. *)
Theorem discard_and_fill_nothing_required
    (fuel : nat) (data : field) (discard fill : arr3 bool) (missing_val : Q) (use_3d : bool) :
  shape discard = shape data -> shape fill = shape data ->
  (forall k j i, in_bounds data k j i -> fill.?[k, j, i] = true ->
     discard.?[k, j, i] = false /\ Qeq_bool data.[k, j, i] missing_val = false) ->
  discard_and_fill fuel data discard fill missing_val use_3d
  = Some (Ok (set_where data discard (fun _ _ _ => missing_val))).
Proof.
  intros _ _ H. unfold discard_and_fill.
  set (d0 := set_where data discard (fun _ _ _ => missing_val)).
  assert (Hs : shape d0 = shape data) by (unfold d0, set_where; apply shape_tab_any).
  assert (H0 : count_nonzero (missing_and_required d0 fill missing_val) = 0).
  { unfold missing_and_required. rewrite Hs.
    destruct (shape data) as [[nz ny] nx] eqn:Es.
    apply count_nonzero_none. intros k j i Hk Hj Hi.
    destruct (fill.?[k, j, i]) eqn:Ef; [|now rewrite andb_false_r].
    assert (Hb : in_bounds data k j i) by (unfold in_bounds; rewrite Es; auto).
    destruct (H k j i Hb Ef) as [Hd Hv].
    unfold d0, set_where. rewrite Es, get_tab by assumption. now rewrite Hd, Hv. }
  rewrite H0. destruct fuel; reflexivity.
Qed.

Lemma discard_and_fill_nothing_required_witness :
  shape (mask_const (1, 3, 4) false) = shape field_3x4 /\
  shape (tab (1, 3, 4) (fun _ j i => negb ((j =? 1) && (i =? 1)))) = shape field_3x4 /\
  (forall k j i, in_bounds field_3x4 k j i -> (tab (1, 3, 4) (fun _ j i => negb ((j =? 1) && (i =? 1)))).?[k, j, i] = true ->
     (mask_const (1, 3, 4) false).?[k, j, i] = false
     /\ Qeq_bool field_3x4.[k, j, i] (-9999) = false) /\
  discard_and_fill 0 field_3x4 (mask_const (1, 3, 4) false) (tab (1, 3, 4) (fun _ j i => negb ((j =? 1) && (i =? 1))))
    (-9999) true
  = Some (Ok (set_where field_3x4 (mask_const (1, 3, 4) false) (fun _ _ _ => (-9999)%Q))).
Proof.
  assert (Hd : shape (mask_const (1, 3, 4) false) = shape field_3x4) by reflexivity.
  assert (Hf : shape (tab (1, 3, 4) (fun _ j i => negb ((j =? 1) && (i =? 1)))) = shape field_3x4) by reflexivity.
  assert (H : forall k j i, in_bounds field_3x4 k j i ->
            (tab (1, 3, 4) (fun _ j i => negb ((j =? 1) && (i =? 1)))).?[k, j, i] = true ->
            (mask_const (1, 3, 4) false).?[k, j, i] = false
            /\ Qeq_bool field_3x4.[k, j, i] (-9999) = false).
  { intros k j i Hb. unfold in_bounds in Hb. cbn in Hb. destruct Hb as (Hk & Hj & Hi).
    destruct k as [|k]; [|lia].
    destruct j as [|[|[|j]]]; [| | |lia];
      (destruct i as [|[|[|[|i]]]]; [| | | |lia]; intros Hr;
       try discriminate Hr; split; reflexivity). }
  split; [exact Hd|]. split; [exact Hf|]. split; [exact H|].
  exact (@discard_and_fill_nothing_required 0 field_3x4 (mask_const (1, 3, 4) false)
           (tab (1, 3, 4) (fun _ j i => negb ((j =? 1) && (i =? 1)))) (-9999) true Hd Hf H).
Defined.
